(** * One-night werewolf engine: a shallow embedding of [game/logic.py]

    The functions of [src/game/logic.py] are translated one by one into a
    small state-and-exception monad over [GameState].  The roster is the
    Python [dict] of players in insertion order, a mutable [Player] object
    is a slot of that list, and the tally built by [calculate_votes] is a
    finite map from identities to counts. *)

From stdpp Require Import base option list gmap strings.

#[local] Set Warnings "-clear-no-such-hyp".

Open Scope Z_scope.

(** ** Data model *)

(** Modelled from the spec: [game/models.py] is not part of the sources at
    hand.  The enumerations carry the members that [logic.py] and [bot.py]
    name ([Role.WEREWOLF], [GamePhase.VOTING], ...), completed by the
    villager of the spec's role catalog. *)
Module Role.
Inductive t := VILLAGER | WEREWOLF | SEER | THIEF | TANNER.
#[global] Instance eq_dec : EqDecision t.
Proof. solve_decision. Defined.
End Role.

Module Team.
Inductive t := VILLAGE | WEREWOLF | TANNER.
#[global] Instance eq_dec : EqDecision t.
Proof. solve_decision. Defined.
End Team.

Module GamePhase.
Inductive t := WAITING | NIGHT | DISCUSSION | VOTING | ENDED.
#[global] Instance eq_dec : EqDecision t.
Proof. solve_decision. Defined.
End GamePhase.

Module NightActionType.
Inductive t := WEREWOLF_CHECK | SEER_PLAYER | SEER_CENTER | THIEF_SWAP | THIEF_SKIP.
#[global] Instance eq_dec : EqDecision t.
Proof. solve_decision. Defined.
End NightActionType.

(** The text stored in [NightAction.result] is an f-string; it is kept as
    the template that was chosen together with the values formatted into
    it, so that two results are equal exactly when the texts are built from
    the same pieces. *)
Inductive ResultText :=
  | OtherWolves (names : list string)
  | SoleWolf
  | SeerSawPlayer (name : string) (r : Role.t)
  | SeerSawCenter (r0 r1 : Role.t)
  | ThiefDidNothing
  | ThiefSwapped (name : string) (r : Role.t).

Record NightAction := mkNightAction {
  action_type : NightActionType.t;
  target_player_id : option Z;
  result : ResultText
}.

(** Modelled from the spec: the [Player] dataclass of [game/models.py],
    with the fields the spec's data model lists and [logic.py] reads and
    writes.  Every player holds an initial and a current role at all times;
    [vote_target_id = None] is "has not voted yet". *)
Record Player := mkPlayer {
  user_id : Z;
  username : string;
  initial_role : Role.t;
  current_role : Role.t;
  has_acted : bool;
  night_action : option NightAction;
  vote_target_id : option Z
}.

(** Modelled from the spec: the [GameState] dataclass of [game/models.py].
    [players] is the dict [user_id -> Player] in insertion order; a player
    is stored under its own [user_id]. *)
Record GameState := mkGameState {
  channel_id : Z;
  host_id : Z;
  players : list Player;
  center_cards : list Role.t;
  phase : GamePhase.t;
  night_action_order : list Role.t;
  night_action_index : nat;
  executed_player_ids : list Z;
  winners : list Team.t
}.

(** Keys of a Python dict are unique: the roster invariant. *)
Definition roster_ok (s : GameState) : Prop := NoDup (user_id <$> players s).

(** The reserved identity of the vote for no execution. *)
Definition PEACE : Z := -1.

(** *** Field assignments *)

Definition set_initial_role (r : Role.t) (p : Player) : Player :=
  mkPlayer (user_id p) (username p) r (current_role p) (has_acted p) (night_action p)
           (vote_target_id p).

Definition set_current_role (r : Role.t) (p : Player) : Player :=
  mkPlayer (user_id p) (username p) (initial_role p) r (has_acted p) (night_action p)
           (vote_target_id p).

Definition set_night_action (a : NightAction) (p : Player) : Player :=
  mkPlayer (user_id p) (username p) (initial_role p) (current_role p) (has_acted p) (Some a)
           (vote_target_id p).

Definition set_has_acted (b : bool) (p : Player) : Player :=
  mkPlayer (user_id p) (username p) (initial_role p) (current_role p) b (night_action p)
           (vote_target_id p).

Definition set_vote_target_id (v : option Z) (p : Player) : Player :=
  mkPlayer (user_id p) (username p) (initial_role p) (current_role p) (has_acted p)
           (night_action p) v.

Definition with_players (ps : list Player) (s : GameState) : GameState :=
  mkGameState (channel_id s) (host_id s) ps (center_cards s) (phase s)
              (night_action_order s) (night_action_index s) (executed_player_ids s) (winners s).

Definition with_center_cards (cs : list Role.t) (s : GameState) : GameState :=
  mkGameState (channel_id s) (host_id s) (players s) cs (phase s)
              (night_action_order s) (night_action_index s) (executed_player_ids s) (winners s).

Definition with_phase (ph : GamePhase.t) (s : GameState) : GameState :=
  mkGameState (channel_id s) (host_id s) (players s) (center_cards s) ph
              (night_action_order s) (night_action_index s) (executed_player_ids s) (winners s).

Definition with_night_action_order (o : list Role.t) (s : GameState) : GameState :=
  mkGameState (channel_id s) (host_id s) (players s) (center_cards s) (phase s)
              o (night_action_index s) (executed_player_ids s) (winners s).

Definition with_night_action_index (i : nat) (s : GameState) : GameState :=
  mkGameState (channel_id s) (host_id s) (players s) (center_cards s) (phase s)
              (night_action_order s) i (executed_player_ids s) (winners s).

Definition with_executed_player_ids (e : list Z) (s : GameState) : GameState :=
  mkGameState (channel_id s) (host_id s) (players s) (center_cards s) (phase s)
              (night_action_order s) (night_action_index s) e (winners s).

Definition with_winners (w : list Team.t) (s : GameState) : GameState :=
  mkGameState (channel_id s) (host_id s) (players s) (center_cards s) (phase s)
              (night_action_order s) (night_action_index s) (executed_player_ids s) w.

(** ** The monad of the engine: state passing with Python exceptions *)

Inductive exn := ValueError | IndexError | KeyError.

Inductive outcome (A : Type) :=
  | Ok (a : A)
  | Raise (e : exn).
Arguments Ok {A} a.
Arguments Raise {A} e.

(** A call runs on the state and yields its outcome with the state it
    leaves behind; what was assigned before an exception stays assigned. *)
Definition M (A : Type) : Type := GameState → outcome A * GameState.

Definition ret {A} (a : A) : M A := λ s, (Ok a, s).

Definition bind {A B} (m : M A) (k : A → M B) : M B :=
  λ s, match m s with
       | (Ok a, s') => k a s'
       | (Raise e, s') => (Raise e, s')
       end.

Definition raise {A} (e : exn) : M A := λ s, (Raise e, s).
Definition get : M GameState := λ s, (Ok s, s).
Definition modify (f : GameState → GameState) : M unit := λ s, (Ok tt, f s).

Declare Scope engine_scope.
Delimit Scope engine_scope with engine.
Notation "'let*' x ':=' m 'in' k" := (bind m (λ x, k))
  (at level 10, x name, m at level 100, k at level 200) : engine_scope.
Notation "m ';;' k" := (bind m (λ _, k))
  (at level 100, k at level 200, right associativity) : engine_scope.
Open Scope engine_scope.

(** *** Roster access *)

(** The first player of a roster stored under an identity, with its slot. *)
Abbreviation find uid ps := (list_find (λ p : Player, user_id p = uid) ps).

(** Modelled from the spec: [GameState.get_player] of [game/models.py], the
    dict lookup [players.get(user_id)].  The answer is a reference to the
    player object: its slot in the roster, with the object found there. *)
Definition lookup_player (s : GameState) (uid : Z) : option (nat * Player) :=
  find uid (players s).

Definition get_player (uid : Z) : M (option (nat * Player)) :=
  let* s := get in
  ret (lookup_player s uid).

(** Assignment to a field of the player object behind a reference. *)
Definition update_player (i : nat) (f : Player → Player) : M unit :=
  modify (λ s, with_players (alter f i (players s)) s).

(** Modelled from the spec: the [player_count] property of [GameState]. *)
Definition player_count (s : GameState) : nat := length (players s).

(** ** Voting *)

Definition register_vote (voter_id target_id : Z) : M bool :=
  let* voter := get_player voter_id in
  let* target := get_player target_id in
  match voter, target with
  | Some (vi, v), Some _ =>
      if decide (voter_id = target_id) then ret false
      else if vote_target_id v is Some _ then ret false
      else update_player vi (set_vote_target_id (Some target_id));; ret true
  | _, _ => ret false
  end.

(** A [for] loop that carries a local value through its iterations. *)
Fixpoint for_each {A B} (body : B → A → M B) (l : list A) (acc : B) : M B :=
  match l with
  | [] => ret acc
  | x :: l' => let* acc' := body acc x in for_each body l' acc'
  end.

(** One iteration of the counting loop of [calculate_votes].  Its [elif]
    branch runs when the target is not a key of the tally, so that its
    [vote_counts[-1] += 1] reads a key that is absent. *)
Definition count_vote (vote_counts : gmap Z nat) (player : Player) : M (gmap Z nat) :=
  match vote_target_id player with
  | Some t =>
      match vote_counts !! t with
      | Some n => ret (<[t := S n]> vote_counts)
      | None =>
          if decide (t = -1) then
            match vote_counts !! (-1) with
            | Some n => ret (<[-1 := S n]> vote_counts)
            | None => raise KeyError
            end
          else ret vote_counts
      end
  | None => ret vote_counts
  end.

Definition calculate_votes : M (gmap Z nat) :=
  let* s := get in
  let vote_counts : gmap Z nat := list_to_map ((λ p, (user_id p, 0%nat)) <$> players s) in
  let vote_counts := <[-1 := 0%nat]> vote_counts in
  for_each count_vote (players s) vote_counts.

(** The items of the tally are enumerated in the order of the finite map,
    not in insertion order; [determine_execution] looks at the order only
    through [max_voted[0]] of a one-element list. *)
Definition determine_execution : M (list Z) :=
  let* vote_counts := calculate_votes in
  if decide (vote_counts = ∅) then ret []
  else
    let max_votes := max_list (snd <$> map_to_list vote_counts) in
    if decide (max_votes = 0%nat) then ret []
    else
      let max_voted :=
        fst <$> filter (λ item, item.2 = max_votes) (map_to_list vote_counts) in
      if decide (1 < length max_voted)%nat then ret []
      else
        match max_voted with
        | [] => raise IndexError
        | uid :: _ =>
            if decide (uid = -1) then
              modify (with_executed_player_ids []);; ret []
            else
              modify (with_executed_player_ids max_voted);; ret max_voted
        end.

(** ** Win evaluation *)

(** Modelled from the spec: [GameState.get_players_by_role] of
    [game/models.py], the players holding [role], by current role when
    [use_current] is set and by initial role otherwise. *)
Definition get_players_by_role (role : Role.t) (use_current : bool) (s : GameState)
  : list Player :=
  filter (λ p, (if use_current then current_role p else initial_role p) = role) (players s).

Definition determine_winner : M (list Team.t) :=
  let* s := get in
  let executed_ids := executed_player_ids s in
  let executed_players := omap (λ uid, snd <$> lookup_player s uid) executed_ids in
  let executed_roles := current_role <$> executed_players in
  if decide (Role.TANNER ∈ executed_roles) then
    modify (with_winners [Team.TANNER]);; ret [Team.TANNER]
  else if decide (executed_ids = []) then
    let werewolves_in_game := get_players_by_role Role.WEREWOLF true s in
    if decide (werewolves_in_game ≠ []) then
      modify (with_winners [Team.WEREWOLF]);; ret [Team.WEREWOLF]
    else
      modify (with_winners [Team.VILLAGE]);; ret [Team.VILLAGE]
  else if decide (Role.WEREWOLF ∈ executed_roles) then
    modify (with_winners [Team.VILLAGE]);; ret [Team.VILLAGE]
  else
    modify (with_winners [Team.WEREWOLF]);; ret [Team.WEREWOLF].

(** ** Dealing *)

Definition NIGHT_ACTION_ORDER : list Role.t := [Role.WEREWOLF; Role.SEER; Role.THIEF].

(** [x[i], x[j] = x[j], x[i]]: both reads, then the write to [x[i]], then
    the write to [x[j]]. *)
Definition swap {A} (i j : nat) (x : list A) : list A :=
  match x !! j, x !! i with
  | Some xj, Some xi => <[j := xi]> (<[i := xj]> x)
  | _, _ => x
  end.

(** [random.shuffle] of the Python library: for [i] from [len(x) - 1] down
    to [1], exchange [x[i]] with [x[j]] for a drawn [j = randbelow(i + 1)].
    The draws are an oracle [rnd]: the number drawn at position [i] is
    [rnd i] brought into the range of [randbelow]. *)
Fixpoint shuffle_from {A} (rnd : nat → nat) (i : nat) (x : list A) : list A :=
  match i with
  | O => x
  | S i' => shuffle_from rnd i' (swap i (rnd i mod (i + 1))%nat x)
  end.

Definition shuffle {A} (rnd : nat → nat) (x : list A) : list A :=
  shuffle_from rnd (length x - 1)%nat x.

(** One iteration of the dealing loop: [shuffled_roles[i]], then the two
    assignments through [state.players[user_id]]. *)
Definition deal_one (shuffled_roles : list Role.t) (_ : unit) (item : nat * Z) : M unit :=
  let '(i, uid) := item in
  match shuffled_roles !! i with
  | None => raise IndexError
  | Some role =>
      let* p := get_player uid in
      match p with
      | None => raise KeyError
      | Some (k, _) =>
          update_player k (set_initial_role role);;
          let* p' := get_player uid in
          match p' with
          | None => raise KeyError
          | Some (k', _) => update_player k' (set_current_role role)
          end
      end
  end.

Definition setup_game (rnd : nat → nat) (role_list : list Role.t) : M unit :=
  let* s := get in
  let player_count := player_count s in
  let expected_cards := (player_count + 2)%nat in
  if decide (length role_list ≠ expected_cards) then raise ValueError
  else
    let shuffled_roles := shuffle rnd role_list in
    let player_ids := user_id <$> players s in
    for_each (deal_one shuffled_roles) (imap (λ i uid, (i, uid)) player_ids) tt;;
    modify (with_center_cards (drop player_count shuffled_roles));;
    modify (with_night_action_order NIGHT_ACTION_ORDER);;
    modify (with_night_action_index 0%nat);;
    modify (with_phase GamePhase.NIGHT).

Definition get_current_night_role (s : GameState) : option Role.t :=
  if decide (length (night_action_order s) ≤ night_action_index s)%nat then None
  else night_action_order s !! night_action_index s.

(** ** Night actions *)

Definition process_seer_action_player (seer_id target_id : Z) : M (option Role.t) :=
  let* seer := get_player seer_id in
  let* target := get_player target_id in
  match seer, target with
  | Some (si, seer), Some (_, target) =>
      if decide (initial_role seer ≠ Role.SEER) then ret None
      else if decide (seer_id = target_id) then ret None
      else
        update_player si
          (set_night_action
             (mkNightAction NightActionType.SEER_PLAYER (Some target_id)
                (SeerSawPlayer (username target) (current_role target))));;
        update_player si (set_has_acted true);;
        ret (Some (current_role target))
  | _, _ => ret None
  end.

Definition process_seer_action_center (seer_id : Z) : M (option (list Role.t)) :=
  let* seer := get_player seer_id in
  match seer with
  | None => ret None
  | Some (si, seer) =>
      if decide (initial_role seer ≠ Role.SEER) then ret None
      else
        let* s := get in
        let center_roles := center_cards s in
        match center_roles !! 0%nat, center_roles !! 1%nat with
        | Some r0, Some r1 =>
            update_player si
              (set_night_action
                 (mkNightAction NightActionType.SEER_CENTER None (SeerSawCenter r0 r1)));;
            update_player si (set_has_acted true);;
            ret (Some center_roles)
        | _, _ => raise IndexError
        end
  end.

Definition process_thief_action (thief_id : Z) (target_id : option Z) : M (option Role.t) :=
  let* thief := get_player thief_id in
  match thief with
  | None => ret None
  | Some (ti, thief) =>
      if decide (initial_role thief ≠ Role.THIEF) then ret None
      else
        match target_id with
        | None =>
            update_player ti
              (set_night_action
                 (mkNightAction NightActionType.THIEF_SKIP None ThiefDidNothing));;
            update_player ti (set_has_acted true);;
            ret None
        | Some target_id =>
            let* target := get_player target_id in
            match target with
            | None => ret None
            | Some (gi, target) =>
                if decide (thief_id = target_id) then ret None
                else
                  let old_thief_role := current_role thief in
                  let new_thief_role := current_role target in
                  update_player ti (set_current_role new_thief_role);;
                  update_player gi (set_current_role old_thief_role);;
                  update_player ti
                    (set_night_action
                       (mkNightAction NightActionType.THIEF_SWAP (Some target_id)
                          (ThiefSwapped (username target) new_thief_role)));;
                  update_player ti (set_has_acted true);;
                  ret (Some new_thief_role)
            end
        end
  end.

(** ** The front end's filter on thief commands

    [check] of [wait_for_thief_actions] in [bot.py], which decides whether
    a message is handed to the loop that calls [process_thief_action].  Of a
    message it reads whether it came from a guild, its author and its text. *)
Record Message := mkMessage {
  guild : option Z;
  author_id : Z;
  content : string
}.

Definition thief_check (game : GameState) (thieves : list Player) (message : Message) : bool :=
  if guild message is Some _ then false
  else if decide (author_id message ∉ user_id <$> thieves) then false
  else
    match lookup_player game (author_id message) with
    | None => false
    | Some (_, player) =>
        if has_acted player then false else String.prefix "!thief" (content message)
    end.

(** ** Reading a state *)

(** The roster members, and a field of the player stored under an identity. *)
Definition in_roster (s : GameState) (uid : Z) : Prop := uid ∈ user_id <$> players s.

#[global] Instance in_roster_dec s uid : Decision (in_roster s uid).
Proof. unfold in_roster. apply _. Defined.

#[global] Instance roster_ok_dec s : Decision (roster_ok s).
Proof. unfold roster_ok. apply _. Defined.

Definition field_of {A} (f : Player → A) (s : GameState) (uid : Z) : option A :=
  f ∘ snd <$> lookup_player s uid.

(** A sequence of [register_vote] calls, each one a pair of a voter and a
    target; the answers are dropped. *)
Fixpoint register_votes (calls : list (Z * Z)) (s : GameState) : GameState :=
  match calls with
  | [] => s
  | (voter_id, target_id) :: calls' =>
      register_votes calls' (register_vote voter_id target_id s).2
  end.

(** The votes cast for an identity, and the identities that the tally
    knows: the roster members and the reserved [-1]. *)
Definition votes_for (s : GameState) (k : Z) : nat :=
  length (filter (λ p, vote_target_id p = Some k) (players s)).

Definition is_identity (s : GameState) (k : Z) : Prop := k = -1 ∨ in_roster s k.

#[global] Instance is_identity_dec s k : Decision (is_identity s k).
Proof. unfold is_identity. apply _. Defined.

Definition is_max_holder (s : GameState) (k : Z) : Prop :=
  is_identity s k ∧ ∀ j, is_identity s j → (votes_for s j ≤ votes_for s k)%nat.

(** The three situations in which nobody is executed: no vote at all, a tie
    for the maximum, and [-1] alone at the maximum. *)
Definition max_is_zero (s : GameState) : Prop :=
  ∀ k, is_identity s k → votes_for s k = 0%nat.

Definition tie_for_max (s : GameState) : Prop :=
  ∃ a b, a ≠ b ∧ is_max_holder s a ∧ is_max_holder s b.

Definition peace_wins (s : GameState) : Prop :=
  is_max_holder s (-1) ∧ ∀ b, is_max_holder s b → b = -1.

Definition no_execution (s : GameState) : Prop :=
  max_is_zero s ∨ tie_for_max s ∨ peace_wins s.

(** What the win rules look at: an executed identity whose player holds a
    role now, and a player of the roster who holds a role now. *)
Definition executed_holds (s : GameState) (role : Role.t) : Prop :=
  ∃ uid, uid ∈ executed_player_ids s ∧ field_of current_role s uid = Some role.

Definition someone_holds (s : GameState) (role : Role.t) : Prop :=
  ∃ p, p ∈ players s ∧ current_role p = role.

(** The part of a state that the win rules read. *)
Definition win_view (s : GameState) : list Z * list (Z * Role.t) :=
  (executed_player_ids s, (λ p, (user_id p, current_role p)) <$> players s).

(** The branches of [determine_winner]: the rules in their order, under
    conditions that exclude one another. *)
Definition winner_rules (s : GameState) (w : list Team.t) : Prop :=
  (executed_holds s Role.TANNER ∧ w = [Team.TANNER])
  ∨ (¬ executed_holds s Role.TANNER ∧ executed_player_ids s = []
     ∧ someone_holds s Role.WEREWOLF ∧ w = [Team.WEREWOLF])
  ∨ (¬ executed_holds s Role.TANNER ∧ executed_player_ids s = []
     ∧ ¬ someone_holds s Role.WEREWOLF ∧ w = [Team.VILLAGE])
  ∨ (¬ executed_holds s Role.TANNER ∧ executed_player_ids s ≠ []
     ∧ executed_holds s Role.WEREWOLF ∧ w = [Team.VILLAGE])
  ∨ (¬ executed_holds s Role.TANNER ∧ executed_player_ids s ≠ []
     ∧ ¬ executed_holds s Role.WEREWOLF ∧ w = [Team.WEREWOLF]).

(** What the dealing loop leaves in a player: both roles are the card. *)
Definition dealt (role : Role.t) (p : Player) : Player :=
  set_current_role role (set_initial_role role p).

(** The state that a deal leaves when its loop has left the roster [ps]
    and the shuffled deck is [shuffled_roles]. *)
Definition after_deal (shuffled_roles : list Role.t) (ps : list Player) (s : GameState)
  : GameState :=
  with_phase GamePhase.NIGHT
    (with_night_action_index 0%nat
       (with_night_action_order NIGHT_ACTION_ORDER
          (with_center_cards (drop (player_count s) shuffled_roles) (with_players ps s)))).

(** *** Sample states *)

Definition new_player (uid : Z) (name : string) (role : Role.t) : Player :=
  mkPlayer uid name role role false None None.

Definition sample_roster : list Player :=
  [ new_player 1 "ann" Role.THIEF; new_player 2 "bob" Role.SEER;
    new_player 3 "cid" Role.WEREWOLF ].

Definition sample_deck : list Role.t :=
  [Role.WEREWOLF; Role.SEER; Role.THIEF; Role.VILLAGER; Role.TANNER].

(** A roster of six in the voting phase, the players [1] to [6] voting in
    this order for the given targets; [1] is A, [2] is B. *)
Definition voting_state (targets : list Z) : GameState :=
  mkGameState 10 1
    (imap (λ i t, mkPlayer (Z.of_nat i + 1) "p" Role.VILLAGER Role.VILLAGER true None (Some t))
          targets)
    [Role.VILLAGER; Role.TANNER] GamePhase.VOTING NIGHT_ACTION_ORDER 3 [] [].

(** A state in which no card lies in the center. *)
Definition empty_center_state : GameState :=
  mkGameState 10 1 sample_roster [] GamePhase.WAITING [] 0 [] [].

Definition sample_state (ph : GamePhase.t) : GameState :=
  mkGameState 10 1 sample_roster [Role.VILLAGER; Role.TANNER] ph NIGHT_ACTION_ORDER 0 [] [].

(** The sample night after the thief [1] has taken the card of [3]: the
    current role of [3] is Thief, the initial role Werewolf. *)
Definition swapped_state : GameState :=
  (process_thief_action 1 (Some 3) (sample_state GamePhase.NIGHT)).2.

(** ** The rest of the engine *)

(** *** The night order *)

Definition advance_night_phase : M (option Role.t) :=
  modify (λ s, with_night_action_index (night_action_index s + 1)%nat s);;
  let* s := get in
  ret (get_current_night_role s).

Definition is_night_phase_complete (s : GameState) : bool :=
  bool_decide (length (night_action_order s) ≤ night_action_index s)%nat.

(** *** The werewolves *)

(** Modelled from the spec: [GameState.get_players_by_initial_role] of
    [game/models.py], the player objects whose initial role is [role], in
    roster order; an object is given by its slot with what is found there. *)
Definition get_players_by_initial_role (role : Role.t) (s : GameState)
  : list (nat * Player) :=
  filter (λ ip, initial_role ip.2 = role) (imap (λ i p, (i, p)) (players s)).

(** The other werewolves of a werewolf, and the text recorded for it. *)
Definition other_wolves_of (werewolves : list (nat * Player)) (uid : Z)
  : list (nat * Player) :=
  filter (λ w, user_id w.2 ≠ uid) werewolves.

Definition werewolf_text (other_wolves : list (nat * Player)) : ResultText :=
  if other_wolves is [] then SoleWolf else OtherWolves (username ∘ snd <$> other_wolves).

(** One iteration of the loop of [process_werewolf_night]; the lists of the
    result hold the player objects by their slots. *)
Definition werewolf_one (werewolves : list (nat * Player))
    (result : gmap Z (list nat)) (wolf : nat * Player) : M (gmap Z (list nat)) :=
  let other_wolves := other_wolves_of werewolves (user_id wolf.2) in
  let result := <[user_id wolf.2 := fst <$> other_wolves]> result in
  update_player wolf.1
    (set_night_action
       (mkNightAction NightActionType.WEREWOLF_CHECK None (werewolf_text other_wolves)));;
  update_player wolf.1 (set_has_acted true);;
  ret result.

Definition process_werewolf_night : M (gmap Z (list nat)) :=
  let* s := get in
  let werewolves := get_players_by_initial_role Role.WEREWOLF s in
  for_each (werewolf_one werewolves) werewolves ∅.

(** What the loop assigns to a werewolf: the record of the check, then
    the flag. *)
Definition wolf_mark (werewolves : list (nat * Player)) (uid : Z) (p : Player) : Player :=
  set_has_acted true
    (set_night_action
       (mkNightAction NightActionType.WEREWOLF_CHECK None
          (werewolf_text (other_wolves_of werewolves uid))) p).

(** *** The seer's two actions behind one entry *)

(** The two texts of [process_seer_action], by template and arguments. *)
Inductive SeerMessage :=
  | CenterIs (r0 r1 : Role.t)
  | PlayerIs (name : string) (r : Role.t).

(** [if roles:] is the test for a non-empty list; [if role:] and
    [if target:] test a role and a player object, which are never false (a
    role's value is its non-empty name). *)
Definition process_seer_action (seer_id : Z) (target_player_id : option Z)
    (view_center : bool) : M (option SeerMessage) :=
  if view_center then
    let* roles := process_seer_action_center seer_id in
    match roles with
    | Some (r0 :: r1 :: _) => ret (Some (CenterIs r0 r1))
    | Some [_] => raise IndexError
    | Some [] => ret None
    | None => ret None
    end
  else
    match target_player_id with
    | Some target_player_id =>
        let* role := process_seer_action_player seer_id target_player_id in
        match role with
        | Some role =>
            let* target := get_player target_player_id in
            match target with
            | Some (_, target) => ret (Some (PlayerIs (username target) role))
            | None => ret None
            end
        | None => ret None
        end
    | None => ret None
    end.

(** *** The texts of the result *)



Inductive WinnerMessage :=
  | NoWinner
  | TannerAlone (name : string)
  | TannerTeam
  | VillageWins
  | WerewolfWins
  | ResultUnknown.

Definition get_winner_message (s : GameState) : WinnerMessage :=
  let winners := winners s in
  if decide (winners = []) then NoWinner
  else if decide (Team.TANNER ∈ winners) then
    let tanner_players :=
      filter (λ p, current_role p = Role.TANNER ∧ user_id p ∈ executed_player_ids s)
             (players s) in
    match tanner_players with
    | p :: _ => TannerAlone (username p)
    | [] => TannerTeam
    end
  else if decide (Team.VILLAGE ∈ winners) then VillageWins
  else if decide (Team.WEREWOLF ∈ winners) then WerewolfWins
  else ResultUnknown.

(** The lines of [get_final_roles_message], before they are joined.  The
    source compares the values of the two roles, which differ exactly when
    the roles do. *)
Inductive RolesLine :=
  | PlayersHeader
  | ChangedPlayer (name : string) (initial current : Role.t)
  | UnchangedPlayer (name : string) (current : Role.t)
  | BlankLine
  | CenterHeader
  | CardLine (i : nat) (role : Role.t).

Definition player_line (player : Player) : RolesLine :=
  if decide (initial_role player ≠ current_role player)
  then ChangedPlayer (username player) (initial_role player) (current_role player)
  else UnchangedPlayer (username player) (current_role player).

Definition get_final_roles_message (s : GameState) : list RolesLine :=
  [PlayersHeader] ++ (player_line <$> players s) ++ [BlankLine; CenterHeader]
  ++ imap (λ i role, CardLine (S i) role) (center_cards s).

(** *** Calls of a night *)

(** The calls that the front end makes into the engine during the night,
    and the state that a sequence of them leaves. *)
Inductive NightCall :=
  | CallWerewolves
  | CallSeer (seer_id : Z) (target_player_id : option Z) (view_center : bool)
  | CallThief (thief_id : Z) (target_id : option Z)
  | CallAdvance.

Definition run_night_call (call : NightCall) (s : GameState) : GameState :=
  match call with
  | CallWerewolves => (process_werewolf_night s).2
  | CallSeer seer_id target_player_id view_center =>
      (process_seer_action seer_id target_player_id view_center s).2
  | CallThief thief_id target_id => (process_thief_action thief_id target_id s).2
  | CallAdvance => (advance_night_phase s).2
  end.

Definition run_night (calls : list NightCall) (s : GameState) : GameState :=
  foldl (λ s call, run_night_call call s) s calls.

(** The two assignments by which an action is recorded for its actor. *)
Definition record_action (i : nat) (action : NightAction) (s : GameState) : GameState :=
  with_players (alter (set_has_acted true) i (alter (set_night_action action) i (players s))) s.

(** What the night leaves of a roster: identities, names, initial roles and
    votes in place, and no [has_acted] flag taken back. *)
Definition roster_keeps (ps ps' : list Player) : Prop :=
  user_id <$> ps' = user_id <$> ps
  ∧ username <$> ps' = username <$> ps
  ∧ initial_role <$> ps' = initial_role <$> ps
  ∧ vote_target_id <$> ps' = vote_target_id <$> ps
  ∧ Forall2 (λ p p', has_acted p = true → has_acted p' = true) ps ps'.

(** What the night leaves of a state: the roster as above with the same
    cards held among the players, the same center, phase, order, executed
    identities and winners, and an index that has not gone back. *)
Definition night_frame (s s' : GameState) : Prop :=
  roster_keeps (players s) (players s')
  ∧ current_role <$> players s' ≡ₚ current_role <$> players s
  ∧ center_cards s' = center_cards s
  ∧ phase s' = phase s
  ∧ night_action_order s' = night_action_order s
  ∧ (night_action_index s ≤ night_action_index s')%nat
  ∧ executed_player_ids s' = executed_player_ids s
  ∧ winners s' = winners s.

(** The sum of the counts of a tally. *)
Definition tally_total (vote_counts : gmap Z nat) : nat :=
  sum_list (snd <$> map_to_list vote_counts).

(** The players whose vote is one that the tally counts. *)
Definition counted_votes (s : GameState) : nat :=
  length (filter (λ p, vote_target_id p ∈ Some <$> (-1) :: (user_id <$> players s))
                 (players s)).

(** The calls that can move a card: a thief action with a target. *)
Definition moves_cards (call : NightCall) : bool :=
  match call with
  | CallThief _ (Some _) => true
  | _ => false
  end.

(** A night on the sample roster: the werewolf step, player 1 asking for
    the center cards, player 2 asking for a swap with player 3, with the
    advances between. *)
Definition sample_night : list NightCall :=
  [CallWerewolves; CallAdvance; CallSeer 1 None true; CallAdvance;
   CallThief 2 (Some 3); CallAdvance].

(** A night in which the thief declines. *)
Definition quiet_night : list NightCall :=
  [CallWerewolves; CallAdvance; CallSeer 2 (Some 3) false; CallAdvance;
   CallThief 1 None; CallAdvance].

(** ** Tactics *)

(** Runs the monad: binds, lookups and assignments become plain terms. *)
Ltac run_engine :=
  cbv beta iota zeta delta [bind ret get modify raise get_player update_player];
  cbn [fst snd].

(** Settles the comparisons of roster slots left by lookups after
    assignments. *)
Ltac decide_indices :=
  repeat first
    [ rewrite decide_True by done
    | rewrite decide_False by (done || (intros ?; done) || congruence) ].

(** ** Running the monad *)

Lemma bind_ok {A B} (m : M A) (k : A → M B) s a s' :
  m s = (Ok a, s') → bind m k s = k a s'.
Proof. intros H. unfold bind. by rewrite H. Qed.

(** ** Lookups in a roster *)

Lemma with_players_id s : with_players (players s) s = s.
Proof. by destruct s. Qed.

Lemma in_roster_lookup s uid : in_roster s uid ↔ is_Some (lookup_player s uid).
Proof.
  unfold in_roster, lookup_player. split.
  - intros (p & -> & Hp)%list_elem_of_fmap.
    by apply (list_find_elem_of (λ q, user_id q = user_id p) _ p).
  - intros [[i p] Hf]. apply list_find_Some in Hf as (Hi & <- & _).
    apply list_elem_of_fmap. exists p. split; [done|].
    by eapply list_elem_of_lookup_2.
Qed.

Lemma not_in_roster_lookup s uid : ¬ in_roster s uid ↔ lookup_player s uid = None.
Proof. rewrite in_roster_lookup, eq_None_not_Some. done. Qed.

Lemma lookup_player_user_id s uid i p :
  lookup_player s uid = Some (i, p) → players s !! i = Some p ∧ user_id p = uid.
Proof. intros (? & ? & _)%list_find_Some. done. Qed.

(** An assignment that keeps identities moves no player: every lookup finds
    the same slot, and sees the assignment in that slot only. *)
Lemma list_find_alter_keep {A} (P : A → Prop) `{!∀ x, Decision (P x)}
    (f : A → A) (l : list A) (i : nat) :
  (∀ x, P (f x) ↔ P x) →
  list_find P (alter f i l)
  = (λ jx : nat * A, (jx.1, if decide (jx.1 = i) then f jx.2 else jx.2)) <$> list_find P l.
Proof.
  intros Hf. revert i. induction l as [|x l IH]; intros i; [done|].
  destruct i as [|i]; cbn.
  - destruct (decide (P x)) as [Hx|Hx].
    + rewrite decide_True by (by apply Hf). done.
    + rewrite decide_False by (by rewrite Hf). destruct (list_find P l) as [[j y]|]; done.
  - destruct (decide (P x)); [done|]. rewrite IH.
    destruct (list_find P l) as [[j y]|]; cbn; [|done].
    destruct (decide (j = i)); [rewrite decide_True by lia|rewrite decide_False by lia]; done.
Qed.

Lemma find_alter (ps : list Player) i f uid :
  (∀ q, user_id (f q) = user_id q) →
  find uid (alter f i ps)
  = (λ jp : nat * Player, (jp.1, if decide (jp.1 = i) then f jp.2 else jp.2)) <$> find uid ps.
Proof.
  intros Hf. apply (list_find_alter_keep (λ p, user_id p = uid)). intros q. by rewrite Hf.
Qed.

Lemma lookup_player_alter s f i uid :
  (∀ p, user_id (f p) = user_id p) →
  lookup_player (with_players (alter f i (players s)) s) uid
  = (λ jp : nat * Player, (jp.1, if decide (jp.1 = i) then f jp.2 else jp.2))
      <$> lookup_player s uid.
Proof. intros Hf. by apply find_alter. Qed.

Lemma find_index_inj (ps : list Player) a b i p q :
  find a ps = Some (i, p) → find b ps = Some (i, q) → a = b.
Proof.
  intros (Hp & Ha & _)%list_find_Some (Hq & Hb & _)%list_find_Some. congruence.
Qed.

Lemma alter_keeps_field {A} (g : Player → A) f i (ps : list Player) :
  (∀ p, g (f p) = g p) → g <$> alter f i ps = g <$> ps.
Proof.
  intros Hf. rewrite (list_fmap_alter g f id) by (apply Forall_forall; intros; apply Hf).
  by apply list_alter_id.
Qed.

Lemma lookup_player_inj s a b i p q :
  lookup_player s a = Some (i, p) → lookup_player s b = Some (i, q) → a = b.
Proof.
  intros [Hp Ha]%lookup_player_user_id [Hq Hb]%lookup_player_user_id. congruence.
Qed.

(** ** Votes *)

Lemma register_vote_rejects s voter_id target_id :
  ¬ in_roster s voter_id ∨ ¬ in_roster s target_id ∨ voter_id = target_id
    ∨ (∃ t, field_of vote_target_id s voter_id = Some (Some t)) →
  register_vote voter_id target_id s = (Ok false, s).
Proof.
  unfold register_vote, field_of. run_engine.
  intros [H|[H|[H|[t H]]]].
  - apply not_in_roster_lookup in H. by rewrite H.
  - apply not_in_roster_lookup in H. rewrite H. by destruct (lookup_player s voter_id) as [[]|].
  - subst. destruct (lookup_player s target_id) as [[i p]|]; [|done].
    by rewrite decide_True.
  - destruct (lookup_player s voter_id) as [[i p]|]; [|done]. cbn in H.
    destruct (lookup_player s target_id) as [[]|]; [|done].
    case_decide; [done|]. destruct (vote_target_id p); [done|by simplify_eq].
Qed.

Lemma register_vote_accepts s voter_id target_id i p :
  lookup_player s voter_id = Some (i, p) → in_roster s target_id →
  voter_id ≠ target_id → vote_target_id p = None →
  register_vote voter_id target_id s
  = (Ok true, with_players (alter (set_vote_target_id (Some target_id)) i (players s)) s).
Proof.
  intros Hv [[j q] Ht]%in_roster_lookup Hne Hnone.
  unfold register_vote. run_engine. rewrite Hv, Ht.
  rewrite decide_False by done. by rewrite Hnone.
Qed.

(** What a call leaves of the votes: a vote that is cast stays as it is. *)
Lemma register_vote_keeps_cast s voter_id target_id uid t :
  field_of vote_target_id s uid = Some (Some t) →
  field_of vote_target_id (register_vote voter_id target_id s).2 uid = Some (Some t).
Proof.
  intros Hu. unfold register_vote. run_engine.
  destruct (lookup_player s voter_id) as [[i p]|] eqn:Hv; [|done].
  destruct (lookup_player s target_id) as [[j q]|] eqn:Ht; [|done].
  case_decide; [done|].
  destruct (vote_target_id p) eqn:Hp; [done|]. run_engine.
  unfold field_of in *. rewrite lookup_player_alter by done.
  destruct (lookup_player s uid) as [[k r]|] eqn:Hk; [|done]. cbn in *.
  case_decide; [|done]. subst k.
  assert (uid = voter_id) as -> by eauto using lookup_player_inj.
  rewrite Hv in Hk. simplify_eq.
Qed.

Lemma register_votes_keep_cast calls s uid t :
  field_of vote_target_id s uid = Some (Some t) →
  field_of vote_target_id (register_votes calls s) uid = Some (Some t).
Proof.
  revert s. induction calls as [|[v g] calls IH]; intros s Hs; [done|].
  cbn. by apply IH, register_vote_keeps_cast.
Qed.

(** C1 (as amended).  [register_vote] answers [False] and leaves the state
    as it is when the voter is not in the roster, when the target is not in
    the roster (the reserved [-1] included, which is no roster member), when
    voter and target are the same, and when the voter has voted.  Otherwise
    it answers [True] and assigns the target to the voter's
    [vote_target_id], touching nothing else; after that, whatever calls
    follow, a call for the same voter answers [False] and the recorded vote
    stays. *)
Theorem register_vote_spec (s : GameState) (voter_id target_id : Z) :
  (¬ in_roster s voter_id ∨ ¬ in_roster s target_id ∨ voter_id = target_id
     ∨ (∃ t, field_of vote_target_id s voter_id = Some (Some t)) →
   register_vote voter_id target_id s = (Ok false, s))
  ∧ (in_roster s voter_id → in_roster s target_id → voter_id ≠ target_id →
     field_of vote_target_id s voter_id = Some None →
     ∃ i s',
       register_vote voter_id target_id s = (Ok true, s')
       ∧ fst <$> lookup_player s voter_id = Some i
       ∧ s' = with_players (alter (set_vote_target_id (Some target_id)) i (players s)) s
       ∧ field_of vote_target_id s' voter_id = Some (Some target_id)
       ∧ ∀ calls t,
           let s'' := register_votes calls s' in
           register_vote voter_id t s'' = (Ok false, s'')
           ∧ field_of vote_target_id s'' voter_id = Some (Some target_id)).
Proof.
  split; [apply register_vote_rejects|].
  intros [[i p] Hv]%in_roster_lookup Ht Hne Hnone.
  unfold field_of in Hnone. rewrite Hv in Hnone. cbn in Hnone.
  exists i, (with_players (alter (set_vote_target_id (Some target_id)) i (players s)) s).
  assert (field_of vote_target_id
            (with_players (alter (set_vote_target_id (Some target_id)) i (players s)) s)
            voter_id = Some (Some target_id)) as Hcast.
  { unfold field_of. rewrite lookup_player_alter, Hv by done. cbn.
    by rewrite decide_True. }
  split_and!.
  - apply (register_vote_accepts _ _ _ i p); [done..|congruence].
  - by rewrite Hv.
  - done.
  - done.
  - intros calls t s''. subst s''.
    pose proof (register_votes_keep_cast calls _ _ _ Hcast) as Hlater.
    split; [|done]. apply register_vote_rejects. eauto.
Qed.

Lemma register_vote_spec_witness :
  ∃ s',
    register_vote 1 2 (sample_state GamePhase.VOTING) = (Ok true, s')
    ∧ field_of vote_target_id s' 1 = Some (Some 2)
    ∧ register_vote 1 3 s' = (Ok false, s')
    ∧ register_vote 2 2 s' = (Ok false, s')
    ∧ register_vote 2 7 s' = (Ok false, s').
Proof.
  destruct (register_vote_spec (sample_state GamePhase.VOTING) 1 2) as [_ Haccept].
  destruct Haccept as (i & s' & Hrun & _ & _ & Hcast & Hlater).
  - apply (bool_decide_unpack _). vm_compute. exact I.
  - apply (bool_decide_unpack _). vm_compute. exact I.
  - discriminate.
  - reflexivity.
  - exists s'. split_and!; [exact Hrun|exact Hcast|apply (Hlater [] 3)|..].
    + apply (register_vote_spec s' 2 2). auto.
    + apply (register_vote_spec s' 2 7). right. left.
      injection Hrun as <-. apply (bool_decide_unpack _). vm_compute. exact I.
Defined.

(** C1, as stated, asks that a vote for the reserved [-1] be accepted; the
    code looks [-1] up in the roster like any target and rejects it. *)
Lemma register_vote_rejects_peace :
  in_roster (sample_state GamePhase.VOTING) 1
  ∧ field_of vote_target_id (sample_state GamePhase.VOTING) 1 = Some None
  ∧ 1 ≠ PEACE
  ∧ register_vote 1 PEACE (sample_state GamePhase.VOTING)
    = (Ok false, sample_state GamePhase.VOTING).
Proof.
  split_and!; [|done..]. unfold in_roster. cbn. set_solver.
Qed.

(** ** The tally *)

Lemma initial_tally_lookup (l : list Player) (k : Z) :
  (list_to_map ((λ p, (user_id p, 0%nat)) <$> l) : gmap Z nat) !! k
  = if decide (k ∈ user_id <$> l) then Some 0%nat else None.
Proof.
  induction l as [|p l IH]; cbn.
  - rewrite lookup_empty. by rewrite decide_False by apply not_elem_of_nil.
  - rewrite lookup_insert. destruct (decide (user_id p = k)) as [->|Hne].
    + by rewrite decide_True by apply list_elem_of_here.
    + rewrite IH. destruct (decide (k ∈ user_id <$> l)).
      * by rewrite decide_True by (by apply list_elem_of_further).
      * rewrite decide_False; [done|]. rewrite elem_of_cons. by intros [?|?].
Qed.

(** The counting loop never reaches the failing read: [-1] is a key from
    the start, and the loop adds to each key the votes cast for it. *)
Lemma count_votes_run (l : list Player) (vc : gmap Z nat) (s : GameState) :
  is_Some (vc !! (-1)) →
  ∃ vc', for_each count_vote l vc s = (Ok vc', s)
    ∧ ∀ k, vc' !! k
           = (λ n, n + length (filter (λ p, vote_target_id p = Some k) l))%nat <$> vc !! k.
Proof.
  revert vc. induction l as [|p l IH]; intros vc Hpeace.
  - exists vc. split; [done|]. intros k. cbn. destruct (vc !! k); cbn; f_equal; lia.
  - cbn [for_each]. unfold count_vote at 1.
    destruct (vote_target_id p) as [t|] eqn:Hp.
    + destruct (vc !! t) as [n|] eqn:Ht.
      * destruct (IH (<[t := S n]> vc)) as (vc' & Hrun & Hvc').
        { rewrite lookup_insert. case_decide; eauto. }
        exists vc'. split; [by rewrite (bind_ok _ _ s (<[t := S n]> vc) s)|].
        intros k. rewrite Hvc', lookup_insert, filter_cons.
        destruct (decide (t = k)) as [->|Hne].
        -- rewrite Ht, decide_True by congruence. cbn. f_equal. lia.
        -- rewrite decide_False by congruence. done.
      * rewrite decide_False by (intros ->; rewrite Ht in Hpeace; by destruct Hpeace).
        destruct (IH vc Hpeace) as (vc' & Hrun & Hvc').
        exists vc'. split; [by rewrite (bind_ok _ _ s vc s)|].
        intros k. rewrite Hvc', filter_cons.
        destruct (decide (vote_target_id p = Some k)) as [Hk|Hk]; [|done].
        assert (t = k) as -> by congruence. by rewrite Ht.
    + destruct (IH vc Hpeace) as (vc' & Hrun & Hvc').
      exists vc'. split; [by rewrite (bind_ok _ _ s vc s)|].
      intros k. rewrite Hvc', filter_cons. by rewrite decide_False by congruence.
Qed.

(** [calculate_votes] returns, and its tally holds for every identity the
    number of votes cast for it, and nothing else. *)
Lemma calculate_votes_run (s : GameState) :
  ∃ vc, calculate_votes s = (Ok vc, s)
    ∧ ∀ k, vc !! k = if decide (is_identity s k) then Some (votes_for s k) else None.
Proof.
  unfold calculate_votes. run_engine.
  edestruct (count_votes_run (players s)) as (vc & Hrun & Hvc);
    [|exists vc; split; [exact Hrun|]].
  { by rewrite lookup_insert_eq. }
  intros k. rewrite Hvc, lookup_insert, initial_tally_lookup. unfold votes_for.
  destruct (decide (is_identity s k)) as [[->|Hk]|Hk].
  - by rewrite decide_True by done.
  - destruct (decide (-1 = k)); [done|]. by rewrite decide_True by done.
  - unfold is_identity, in_roster in Hk.
    rewrite decide_False by naive_solver. by rewrite decide_False by naive_solver.
Qed.

(** ** The execution *)

Section tally_facts.
Context (vc : gmap Z nat).

Local Abbreviation max_votes := (max_list (snd <$> map_to_list vc)).
Local Abbreviation max_voted :=
  (fst <$> filter (λ item : Z * nat, item.2 = max_votes) (map_to_list vc)).

Lemma max_votes_bound k n : vc !! k = Some n → (n ≤ max_votes)%nat.
Proof.
  intros Hk. apply max_list_elem_of_le, list_elem_of_fmap.
  exists (k, n). split; [done|]. by apply elem_of_map_to_list.
Qed.

Lemma max_votes_attained : vc ≠ ∅ → ∃ k, vc !! k = Some max_votes.
Proof.
  intros Hne.
  assert (snd <$> map_to_list vc ≠ []) as Hvals.
  { intros Hnil%fmap_nil_inv. by apply map_to_list_empty_iff in Hnil. }
  apply max_list_elem_of, list_elem_of_fmap in Hvals as ([k n] & Hm & Hin).
  exists k. apply elem_of_map_to_list in Hin. by rewrite Hin, Hm.
Qed.

Lemma max_voted_elem k : k ∈ max_voted ↔ vc !! k = Some max_votes.
Proof.
  rewrite list_elem_of_fmap. split.
  - intros ([j n] & -> & [Hn Hin]%list_elem_of_filter). cbn in *. subst n.
    by apply elem_of_map_to_list.
  - intros Hk. exists (k, max_votes). split; [done|].
    apply list_elem_of_filter. split; [done|]. by apply elem_of_map_to_list.
Qed.

Lemma max_voted_NoDup : NoDup max_voted.
Proof.
  apply (sublist_NoDup _ (fst <$> map_to_list vc)).
  - apply NoDup_fst_map_to_list.
  - apply fmap_sublist, sublist_filter.
Qed.
End tally_facts.

Lemma tally_nonempty s (vc : gmap Z nat) :
  (∀ k, vc !! k = if decide (is_identity s k) then Some (votes_for s k) else None) →
  vc ≠ ∅.
Proof.
  intros Hvc ->. specialize (Hvc (-1)). rewrite lookup_empty in Hvc.
  rewrite decide_True in Hvc by (by left). done.
Qed.

(** The identities at the maximum are the keys that hold the greatest count. *)
Lemma max_holder_lookup s (vc : gmap Z nat) k :
  (∀ k, vc !! k = if decide (is_identity s k) then Some (votes_for s k) else None) →
  is_max_holder s k ↔ vc !! k = Some (max_list (snd <$> map_to_list vc)).
Proof.
  intros Hvc. pose proof (tally_nonempty s vc Hvc) as Hne.
  destruct (max_votes_attained vc Hne) as (j & Hj).
  assert (is_identity s j ∧ votes_for s j = max_list (snd <$> map_to_list vc)) as [Hji Hjm].
  { rewrite Hvc in Hj. case_decide; [|done]. split; [done|congruence]. }
  split.
  - intros [Hk Hmax]. pose proof (Hvc k) as Hkk. rewrite decide_True in Hkk by done.
    pose proof (max_votes_bound vc k _ Hkk). specialize (Hmax j Hji).
    rewrite Hkk. f_equal. lia.
  - intros Hk. pose proof Hk as Hk'. rewrite Hvc in Hk'. case_decide; [|done].
    split; [done|]. intros i Hi. pose proof (Hvc i) as Hii.
    rewrite decide_True in Hii by done.
    pose proof (max_votes_bound vc i _ Hii). simplify_eq. lia.
Qed.

(** C2.  [determine_execution] always returns; it returns the empty list
    when the greatest count is zero, when two or more identities (the
    reserved [-1] possibly among them) share the greatest count, and when
    [-1] alone holds it; in every other state it returns the one-element
    list of the roster member who alone holds the greatest count. *)
Theorem determine_execution_spec (s : GameState) :
  ∃ r s',
    determine_execution s = (Ok r, s')
    ∧ (no_execution s → r = [])
    ∧ (¬ no_execution s →
       ∃ a, r = [a] ∧ in_roster s a ∧ a ≠ -1 ∧ (0 < votes_for s a)%nat
            ∧ is_max_holder s a ∧ ∀ b, is_max_holder s b → b = a).
Proof.
  destruct (calculate_votes_run s) as (vc & Hrun & Hvc).
  pose proof (tally_nonempty s vc Hvc) as Hne.
  pose proof (λ k, max_holder_lookup s vc k Hvc) as Hholder.
  pose proof (max_voted_elem vc) as Helem.
  pose proof (max_voted_NoDup vc) as Hnodup.
  pose proof (max_votes_bound vc) as Hbound.
  destruct (max_votes_attained vc Hne) as (top & Htop).
  unfold determine_execution. rewrite (bind_ok _ _ _ _ _ Hrun).
  rewrite decide_False by done.
  set (max_votes := max_list (snd <$> map_to_list vc)) in *.
  set (max_voted := fst <$> filter (λ item, item.2 = max_votes) (map_to_list vc)) in *.
  destruct (decide (max_votes = 0%nat)) as [Hzero|Hpos].
  { exists [], s. split_and!; [done..|]. intros []. left. intros k Hk.
    pose proof (Hvc k) as Hkk. rewrite decide_True in Hkk by done.
    apply Hbound in Hkk. lia. }
  destruct (decide (1 < length max_voted)%nat) as [Hmany|Hfew].
  { exists [], s. split_and!; [done..|]. intros []. right. left.
    destruct max_voted as [|a [|b l]] eqn:Hmv; cbn in Hmany; [lia..|].
    exists a, b. split_and!.
    - apply NoDup_cons in Hnodup as [Ha _]. intros ->. apply Ha. by left.
    - apply Hholder, Helem. by left.
    - apply Hholder, Helem. right. by left. }
  destruct max_voted as [|uid rest] eqn:Hmv.
  { apply Helem in Htop. by apply elem_of_nil in Htop. }
  assert (rest = []) as -> by (destruct rest; [done|cbn in Hfew; lia]).
  assert (∀ b, is_max_holder s b → b = uid) as Honly.
  { intros b Hb%Hholder%Helem. by apply list_elem_of_singleton in Hb. }
  assert (is_max_holder s uid) as Huid by (apply Hholder, Helem; by left).
  destruct (decide (uid = -1)) as [->|Hreal].
  { eexists [], _. split_and!; [done..|]. intros []. right. right. done. }
  eexists [uid], _. split_and!; [done| |].
  - intros [Hz|[(a & b & Hab & Ha & Hb)|[Hp _]]]; exfalso.
    + destruct Huid as [Hid _].
      pose proof (Hvc uid) as Hu. rewrite decide_True in Hu by done.
      apply Hz in Hid.
      assert (vc !! uid = Some max_votes) as Hm by (apply Helem; by left).
      rewrite Hm in Hu. simplify_eq. lia.
    + apply Honly in Ha, Hb. congruence.
    + apply Honly in Hp. congruence.
  - intros _. exists uid. destruct Huid as [[?|Hin] Hmax]; [done|].
    assert (vc !! uid = Some max_votes) as Hm by (apply Helem; by left).
    pose proof (Hvc uid) as Hu. rewrite decide_True in Hu by (by right).
    rewrite Hm in Hu. simplify_eq. split_and!; [done..|lia| |done].
    split; [by right|done].
Qed.

Lemma determine_execution_spec_witness :
  (determine_execution (voting_state [2; 1; 2; 1])).1 = Ok []
  ∧ (determine_execution (voting_state [2; 1; 1; 1])).1 = Ok [1].
Proof.
  assert (∀ targets j,
            is_identity (voting_state targets) j →
            j ∈ (-1) :: (user_id <$> players (voting_state targets))) as Hids.
  { intros targets j [->|Hj]; [by left|by right]. }
  split.
  - destruct (determine_execution_spec (voting_state [2; 1; 2; 1]))
      as (r & s' & Hrun & Hnone & _).
    rewrite Hrun. cbn. f_equal. apply Hnone. right. left. exists 1, 2.
    split_and!; [discriminate| |].
    + split; [right; apply (bool_decide_unpack _); vm_compute; exact I|].
      intros j Hj%Hids. vm_compute in Hj.
      repeat (apply elem_of_cons in Hj as [->|Hj]; [vm_compute; lia|]).
      by apply elem_of_nil in Hj.
    + split; [right; apply (bool_decide_unpack _); vm_compute; exact I|].
      intros j Hj%Hids. vm_compute in Hj.
      repeat (apply elem_of_cons in Hj as [->|Hj]; [vm_compute; lia|]).
      by apply elem_of_nil in Hj.
  - destruct (determine_execution_spec (voting_state [2; 1; 1; 1]))
      as (r & s' & Hrun & _ & Hsome).
    rewrite Hrun. cbn. f_equal. destruct Hsome as (a & -> & _ & _ & _ & Ha & _).
    + assert (is_identity (voting_state [2; 1; 1; 1]) 1) as Hone.
      { right. apply (bool_decide_unpack _). vm_compute. exact I. }
      intros [Hz|[(a & b & Hab & [Ha Hamax] & [Hb Hbmax])|[[_ Hp] _]]].
      * specialize (Hz 1 Hone). vm_compute in Hz. discriminate.
      * specialize (Hamax 1 Hone). specialize (Hbmax 1 Hone).
        apply Hids in Ha, Hb. vm_compute in Ha, Hb. apply Hab.
        repeat (apply elem_of_cons in Ha as [->|Ha]; [vm_compute in Hamax; try lia|]);
          try (by apply elem_of_nil in Ha).
        repeat (apply elem_of_cons in Hb as [->|Hb]; [vm_compute in Hbmax; try lia|]);
          try (by apply elem_of_nil in Hb).
      * specialize (Hp 1 Hone). vm_compute in Hp. lia.
    + destruct Ha as [Ha Hamax].
      specialize (Hamax 1 ltac:(right; apply (bool_decide_unpack _); vm_compute; exact I)).
      apply Hids in Ha. vm_compute in Ha.
      repeat (apply elem_of_cons in Ha as [->|Ha]; [vm_compute in Hamax; try lia|]);
        try (by apply elem_of_nil in Ha).
      reflexivity.
Defined.

(** The four scenarios of the execution rule: a tie of two players, a tie
    with the vote for no execution, a majority for no execution, and a
    majority for a player. *)
Example execution_tie : (determine_execution (voting_state [2; 1; 2; 1])).1 = Ok [].
Proof. vm_compute. reflexivity. Qed.

Example execution_tie_with_peace :
  (determine_execution (voting_state [-1; 1; -1; 1; -1; 1])).1 = Ok [].
Proof. vm_compute. reflexivity. Qed.

Example execution_peace_majority :
  (determine_execution (voting_state [-1; -1; -1; -1; 1])).1 = Ok [].
Proof. vm_compute. reflexivity. Qed.

Example execution_majority :
  (determine_execution (voting_state [2; 1; 1; 1])).1 = Ok [1].
Proof. vm_compute. reflexivity. Qed.

(** ** The winner *)

Lemma executed_roles_elem s role :
  role ∈ current_role <$> omap (λ uid, snd <$> lookup_player s uid) (executed_player_ids s)
  ↔ executed_holds s role.
Proof.
  unfold executed_holds, field_of. rewrite list_elem_of_fmap. split.
  - intros (p & -> & (uid & Huid & Hp)%list_elem_of_omap).
    exists uid. split; [done|]. destruct (lookup_player s uid) as [[i q]|]; by simplify_eq/=.
  - intros (uid & Huid & Hrole).
    destruct (lookup_player s uid) as [[i q]|] eqn:Hq; simplify_eq/=.
    exists q. split; [done|]. apply list_elem_of_omap. exists uid. by rewrite Hq.
Qed.

Lemma werewolves_in_game_nonempty s :
  get_players_by_role Role.WEREWOLF true s ≠ [] ↔ someone_holds s Role.WEREWOLF.
Proof.
  unfold get_players_by_role, someone_holds. split.
  - intros Hne. destruct (filter _ _) as [|p l] eqn:Hf; [done|].
    assert (p ∈ filter (λ p, current_role p = Role.WEREWOLF) (players s)) as Hp
      by (rewrite Hf; by left).
    apply list_elem_of_filter in Hp as [??]. eauto.
  - intros (p & Hp & Hrole) Hnil.
    assert (p ∈ filter (λ p, current_role p = Role.WEREWOLF) (players s)) as Hin
      by (by apply list_elem_of_filter).
    rewrite Hnil in Hin. by apply elem_of_nil in Hin.
Qed.

Lemma determine_winner_run (s : GameState) :
  ∃ w, determine_winner s = (Ok w, with_winners w s) ∧ winner_rules s w.
Proof.
  unfold determine_winner, winner_rules. run_engine.
  destruct (decide (Role.TANNER ∈ _)) as [Ht|Ht]; rewrite executed_roles_elem in Ht.
  { exists [Team.TANNER]. split; [done|]. by left. }
  destruct (decide (executed_player_ids s = [])) as [Hnone|Hsome].
  - destruct (decide (get_players_by_role Role.WEREWOLF true s ≠ [])) as [Hw|Hw];
      rewrite werewolves_in_game_nonempty in Hw.
    + exists [Team.WEREWOLF]. split; [done|]. right. left. done.
    + exists [Team.VILLAGE]. split; [done|]. right. right. left. done.
  - destruct (decide (Role.WEREWOLF ∈ _)) as [Hw|Hw]; rewrite executed_roles_elem in Hw.
    + exists [Team.VILLAGE]. split; [done|]. do 3 right. left. done.
    + exists [Team.WEREWOLF]. split; [done|]. do 4 right. done.
Qed.

Lemma win_view_lookup (s1 s2 : GameState) (uid : Z) :
  win_view s1 = win_view s2 →
  field_of current_role s1 uid = field_of current_role s2 uid.
Proof.
  unfold win_view, field_of, lookup_player. intros [_ Hps]%pair_eq. revert Hps.
  generalize (players s1) (players s2). clear.
  induction l as [|p l IH]; intros [|q l'] Heq; [done..|].
  injection Heq as Hid Hrole Hrest. cbn. rewrite <- Hid.
  destruct (decide (user_id p = uid)); cbn; [by rewrite Hrole|].
  specialize (IH _ Hrest).
  destruct (list_find _ l) as [[]|], (list_find _ l') as [[]|]; cbn in *; congruence.
Qed.

Lemma win_view_rules (s1 s2 : GameState) (w : list Team.t) :
  win_view s1 = win_view s2 → winner_rules s1 w → winner_rules s2 w.
Proof.
  intros Hview.
  assert (∀ role, executed_holds s1 role ↔ executed_holds s2 role) as Hexec.
  { intros role. unfold executed_holds.
    assert (executed_player_ids s1 = executed_player_ids s2) as ->
      by (by apply pair_eq in Hview as [? _]).
    split; intros (uid & ? & Hr); exists uid; (split; [done|]);
      by rewrite (win_view_lookup s1 s2 uid Hview) in *. }
  assert (someone_holds s1 Role.WEREWOLF ↔ someone_holds s2 Role.WEREWOLF) as Hwolf.
  { assert (∀ s, someone_holds s Role.WEREWOLF ↔ Role.WEREWOLF ∈ snd <$> (win_view s).2)
      as Hread.
    { intros s. unfold someone_holds, win_view. cbn.
      rewrite <- list_fmap_compose, list_elem_of_fmap. naive_solver. }
    by rewrite !Hread, Hview. }
  assert (executed_player_ids s1 = executed_player_ids s2) as Hex
    by (by apply pair_eq in Hview as [? _]).
  unfold winner_rules. rewrite !Hexec, Hwolf, Hex. done.
Qed.

Lemma winner_rules_functional (s : GameState) (w1 w2 : list Team.t) :
  winner_rules s w1 → winner_rules s w2 → w1 = w2.
Proof. unfold winner_rules. naive_solver. Qed.

(** C3.  [determine_winner] returns on every state and stores what it
    returns in [winners]; the winner follows the four rules in their order,
    the conditions of the branches exclude one another, so that exactly one
    of them applies, and two states with the same executed identities and
    the same current roles have the same winner. *)
Theorem determine_winner_spec (s : GameState) :
  (∃ w,
     determine_winner s = (Ok w, with_winners w s)
     ∧ ( (executed_holds s Role.TANNER ∧ w = [Team.TANNER])
       ∨ (¬ executed_holds s Role.TANNER ∧ executed_player_ids s = []
          ∧ someone_holds s Role.WEREWOLF ∧ w = [Team.WEREWOLF])
       ∨ (¬ executed_holds s Role.TANNER ∧ executed_player_ids s = []
          ∧ ¬ someone_holds s Role.WEREWOLF ∧ w = [Team.VILLAGE])
       ∨ (¬ executed_holds s Role.TANNER ∧ executed_player_ids s ≠ []
          ∧ executed_holds s Role.WEREWOLF ∧ w = [Team.VILLAGE])
       ∨ (¬ executed_holds s Role.TANNER ∧ executed_player_ids s ≠ []
          ∧ ¬ executed_holds s Role.WEREWOLF ∧ w = [Team.WEREWOLF]) ))
  ∧ (∀ s2, win_view s = win_view s2 → (determine_winner s).1 = (determine_winner s2).1).
Proof.
  split; [apply determine_winner_run|].
  intros s2 Hview.
  destruct (determine_winner_run s) as (w1 & -> & H1).
  destruct (determine_winner_run s2) as (w2 & -> & H2). cbn. f_equal.
  eapply winner_rules_functional; [|exact H2]. by eapply win_view_rules.
Qed.

Lemma determine_winner_spec_witness :
  (determine_winner (with_executed_player_ids [3] (sample_state GamePhase.VOTING))).1
  = (determine_winner (with_executed_player_ids [3] (sample_state GamePhase.ENDED))).1
  ∧ ∃ w, determine_winner (with_executed_player_ids [3] (sample_state GamePhase.ENDED))
         = (Ok w, with_winners w (with_executed_player_ids [3] (sample_state GamePhase.ENDED)))
         ∧ w = [Team.VILLAGE].
Proof.
  split.
  - apply (determine_winner_spec (with_executed_player_ids [3] (sample_state GamePhase.VOTING))).
    reflexivity.
  - destruct (determine_winner_spec
                (with_executed_player_ids [3] (sample_state GamePhase.ENDED)))
      as [(w & Hrun & _) _].
    exists w. split; [exact Hrun|]. vm_compute in Hrun. by injection Hrun as <-.
Defined.

(** ** The shuffle *)

Lemma swap_length {A} (i j : nat) (x : list A) : length (swap i j x) = length x.
Proof.
  unfold swap. destruct (x !! j), (x !! i); by rewrite ?length_insert.
Qed.

Lemma swap_lookup {A} (i j : nat) (x : list A) (k : nat) :
  (i < length x)%nat → (j < length x)%nat →
  swap i j x !! k = x !! (if decide (k = i) then j else if decide (k = j) then i else k).
Proof.
  intros Hi Hj. unfold swap.
  destruct (lookup_lt_is_Some_2 x i Hi) as [xi Hxi].
  destruct (lookup_lt_is_Some_2 x j Hj) as [xj Hxj].
  rewrite Hxi, Hxj.
  destruct (decide (k = j)) as [->|Hkj].
  - rewrite list_lookup_insert_eq by (by rewrite length_insert).
    case_decide; by simplify_eq.
  - rewrite list_lookup_insert_ne by done.
    destruct (decide (k = i)) as [->|Hki].
    + by rewrite list_lookup_insert_eq.
    + by rewrite list_lookup_insert_ne.
Qed.

Lemma swap_Permutation {A} (i j : nat) (x : list A) : swap i j x ≡ₚ x.
Proof.
  destruct (decide (i < length x ∧ j < length x)%nat) as [[Hi Hj]|Hout].
  - apply Permutation_inj. split; [apply swap_length|].
    exists (λ k, if decide (k = i) then j else if decide (k = j) then i else k). split.
    + intros a b. repeat case_decide; lia.
    + intros k. by apply swap_lookup.
  - unfold swap. destruct (x !! j) eqn:Hxj; [|done]. destruct (x !! i) eqn:Hxi; [|done].
    apply lookup_lt_Some in Hxi, Hxj. lia.
Qed.

Lemma shuffle_from_Permutation {A} (rnd : nat → nat) (i : nat) (x : list A) :
  shuffle_from rnd i x ≡ₚ x.
Proof.
  revert x. induction i as [|i IH]; intros x; [done|].
  cbn [shuffle_from]. rewrite IH. apply swap_Permutation.
Qed.

(** Whatever is drawn, the shuffled deck holds the cards of the deck. *)
Lemma shuffle_Permutation {A} (rnd : nat → nat) (x : list A) : shuffle rnd x ≡ₚ x.
Proof. apply shuffle_from_Permutation. Qed.

Lemma shuffle_length {A} (rnd : nat → nat) (x : list A) : length (shuffle rnd x) = length x.
Proof. apply Permutation_length, shuffle_Permutation. Qed.

(** ** The deal *)

Lemma with_players_with_players ps ps' s :
  with_players ps' (with_players ps s) = with_players ps' s.
Proof. done. Qed.

Lemma deal_one_run sh i uid s role k p :
  sh !! i = Some role → lookup_player s uid = Some (k, p) →
  deal_one sh tt (i, uid) s = (Ok tt, with_players (alter (dealt role) k (players s)) s).
Proof.
  intros Hsh Hp. unfold deal_one. rewrite Hsh. run_engine. rewrite Hp. run_engine.
  rewrite lookup_player_alter, Hp by done. cbn. run_engine. cbn.
  by rewrite with_players_with_players, list_alter_alter_eq.
Qed.

(** The dealing loop returns whenever its indices are inside the shuffled
    deck and its identities are roster members, and it keeps the roster's
    identities in place. *)
Lemma deal_loop_returns sh (items : list (nat * Z)) s :
  (∀ i uid, (i, uid) ∈ items → is_Some (sh !! i) ∧ in_roster s uid) →
  ∃ ps', for_each (deal_one sh) items tt s = (Ok tt, with_players ps' s)
         ∧ user_id <$> ps' = user_id <$> players s.
Proof.
  revert s. induction items as [|[i uid] items IH]; intros s Hitems.
  - exists (players s). by rewrite with_players_id.
  - destruct (Hitems i uid) as [[role Hrole] [[k p] Hp]%in_roster_lookup]; [by left|].
    cbn [for_each]. rewrite (bind_ok _ _ _ _ _ (deal_one_run _ _ _ _ _ _ _ Hrole Hp)).
    destruct (IH (with_players (alter (dealt role) k (players s)) s)) as (ps' & Hrun & Hids).
    { intros j u Hju. destruct (Hitems j u) as [? Hu]; [by right|]. split; [done|].
      unfold in_roster in *. cbn. by rewrite alter_keeps_field. }
    exists ps'. rewrite Hrun. split; [done|].
    rewrite Hids. cbn. by apply alter_keeps_field.
Qed.

Lemma lookup_player_middle s done p todo :
  players s = done ++ p :: todo → NoDup (user_id <$> (done ++ p :: todo)) →
  lookup_player s (user_id p) = Some (length done, p).
Proof.
  intros Hps Hnd. unfold lookup_player. rewrite Hps. apply list_find_Some. split_and!.
  - by rewrite list_lookup_middle.
  - done.
  - intros j q Hq Hj Heq. rewrite lookup_app_l in Hq by done.
    rewrite fmap_app, fmap_cons in Hnd. apply NoDup_app in Hnd as (_ & Hdisj & _).
    apply (Hdisj (user_id p)); [|by left].
    rewrite <- Heq. apply list_elem_of_fmap. exists q. split; [done|].
    by eapply list_elem_of_lookup_2.
Qed.

(** With distinct identities the loop hands the cards out in roster order. *)
Lemma deal_loop_exact sh (done todo : list Player) s :
  players s = done ++ todo → NoDup (user_id <$> (done ++ todo)) →
  (length done + length todo ≤ length sh)%nat →
  for_each (deal_one sh) (imap (λ i uid, ((length done + i)%nat, uid)) (user_id <$> todo)) tt s
  = (Ok tt, with_players (done ++ zip_with dealt (drop (length done) sh) todo) s).
Proof.
  revert done s. induction todo as [|p todo IH]; intros done s Hps Hnd Hlen.
  - cbn. rewrite zip_with_nil_r, app_nil_r in *. by rewrite <- Hps, with_players_id.
  - cbn in Hlen. rewrite fmap_cons, imap_cons. cbn [for_each].
    destruct (lookup_lt_is_Some_2 sh (length done)) as [role Hrole]; [lia|].
    rewrite Nat.add_0_r.
    rewrite (bind_ok _ _ _ _ _
               (deal_one_run _ _ _ _ _ _ _ Hrole (lookup_player_middle _ _ _ _ Hps Hnd))).
    assert (alter (dealt role) (length done) (players s)
            = (done ++ [dealt role p]) ++ todo) as Hstep.
    { rewrite Hps, alter_app_r_alt, Nat.sub_diag by done. by rewrite <- app_assoc. }
    rewrite (imap_ext _ (λ i uid, ((length (done ++ [dealt role p]) + i)%nat, uid)))
      by (intros; rewrite length_app; cbn; f_equal; lia).
    rewrite IH.
    + rewrite with_players_with_players. f_equal. f_equal.
      rewrite length_app. cbn. rewrite Nat.add_1_r.
      rewrite (drop_S _ _ _ Hrole). cbn. by rewrite <- app_assoc.
    + by rewrite Hstep.
    + rewrite <- app_assoc. cbn. by rewrite !fmap_app, !fmap_cons in *.
    + rewrite length_app. cbn. lia.
Qed.

Lemma dealt_initial_roles (sh : list Role.t) (ps : list Player) :
  (length ps ≤ length sh)%nat →
  initial_role <$> zip_with dealt sh ps = take (length ps) sh.
Proof.
  revert sh. induction ps as [|p ps IH]; intros [|r sh] Hlen; cbn in *; try done.
  f_equal. apply IH. lia.
Qed.

Lemma dealt_roles_agree (sh : list Role.t) (ps : list Player) :
  Forall (λ p, initial_role p = current_role p) (zip_with dealt sh ps).
Proof.
  revert ps. induction sh as [|r sh IH]; intros [|p ps]; cbn; constructor; [done|apply IH].
Qed.

Lemma dealt_user_ids (sh : list Role.t) (ps : list Player) :
  (length ps ≤ length sh)%nat → user_id <$> zip_with dealt sh ps = user_id <$> ps.
Proof.
  revert sh. induction ps as [|p ps IH]; intros [|r sh] Hlen; cbn in *; try done; [lia|].
  f_equal. apply IH. lia.
Qed.

Lemma setup_game_mismatch rnd deck s :
  length deck ≠ (player_count s + 2)%nat → setup_game rnd deck s = (Raise ValueError, s).
Proof. intros Hlen. unfold setup_game. run_engine. by rewrite decide_True. Qed.

Lemma setup_game_after_loop rnd deck s ps' :
  length deck = (player_count s + 2)%nat →
  for_each (deal_one (shuffle rnd deck)) (imap (λ i uid, (i, uid)) (user_id <$> players s)) tt s
  = (Ok tt, with_players ps' s) →
  setup_game rnd deck s = (Ok tt, after_deal (shuffle rnd deck) ps' s).
Proof.
  intros Hlen Hloop. unfold setup_game. run_engine. rewrite decide_False by (by intros []).
  by rewrite Hloop.
Qed.

Lemma setup_game_returns rnd deck s :
  length deck = (player_count s + 2)%nat → ∃ s', setup_game rnd deck s = (Ok tt, s').
Proof.
  intros Hlen.
  destruct (deal_loop_returns (shuffle rnd deck)
              (imap (λ i uid, (i, uid)) (user_id <$> players s)) s) as (ps' & Hloop & _).
  { intros i uid (j & u & ? & Hu)%elem_of_lookup_imap. simplify_eq. split.
    - apply lookup_lt_is_Some_2. rewrite shuffle_length, Hlen.
      apply lookup_lt_Some in Hu. rewrite length_fmap in Hu. unfold player_count. lia.
    - by eapply list_elem_of_lookup_2. }
  eexists. by apply setup_game_after_loop.
Qed.

(** C5.  [setup_game] raises exactly when the deck does not have two cards
    more than the roster has players; what it raises is the [ValueError] of
    its length check, and the state is then the one it was called on:
    roles, center cards and phase are as before. *)
Theorem setup_game_fails_iff (rnd : nat → nat) (deck : list Role.t) (s : GameState) :
  ((∃ e s', setup_game rnd deck s = (Raise e, s'))
   ↔ length deck ≠ (player_count s + 2)%nat)
  ∧ (∀ e s', setup_game rnd deck s = (Raise e, s') → e = ValueError ∧ s' = s).
Proof.
  destruct (decide (length deck = (player_count s + 2)%nat)) as [Hlen|Hlen].
  - destruct (setup_game_returns rnd deck s Hlen) as (s1 & Hrun). rewrite Hrun.
    split; [|done]. split; [by intros (? & ? & ?)|done].
  - rewrite (setup_game_mismatch rnd deck s Hlen). split.
    + split; [done|eauto].
    + intros e s' ?. by simplify_eq.
Qed.

Lemma setup_game_fails_iff_witness :
  setup_game (λ _, 0%nat) [Role.WEREWOLF; Role.SEER] (sample_state GamePhase.WAITING)
  = (Raise ValueError, sample_state GamePhase.WAITING).
Proof.
  destruct (setup_game_fails_iff (λ _, 0%nat) [Role.WEREWOLF; Role.SEER]
              (sample_state GamePhase.WAITING)) as [[_ Hfails] Hunchanged].
  destruct Hfails as (e & s' & Hrun); [cbn; lia|].
  destruct (Hunchanged e s' Hrun) as [-> ->]. exact Hrun.
Defined.

(** C4.  On a roster of distinct identities and a deck of two cards more
    than there are players, [setup_game] returns and leaves a state in which
    the initial roles of the players together with the center cards are the
    cards of the deck, counted with multiplicity, every player's current
    role is the initial role, two cards lie in the center, the phase is
    Night, and the night order is Werewolf, Seer, Thief with its index at
    the start, so that the Werewolf step is the pending one. *)
Theorem setup_game_deals (rnd : nat → nat) (deck : list Role.t) (s : GameState) :
  roster_ok s → length deck = (player_count s + 2)%nat →
  ∃ s',
    setup_game rnd deck s = (Ok tt, s')
    ∧ (initial_role <$> players s') ++ center_cards s' ≡ₚ deck
    ∧ Forall (λ p, initial_role p = current_role p) (players s')
    ∧ user_id <$> players s' = user_id <$> players s
    ∧ length (center_cards s') = 2%nat
    ∧ phase s' = GamePhase.NIGHT
    ∧ night_action_order s' = [Role.WEREWOLF; Role.SEER; Role.THIEF]
    ∧ night_action_index s' = 0%nat
    ∧ get_current_night_role s' = Some Role.WEREWOLF.
Proof.
  intros Hnd Hlen. unfold roster_ok, player_count in *.
  pose proof (shuffle_length rnd deck) as Hsh.
  pose proof (deal_loop_exact (shuffle rnd deck) [] (players s) s eq_refl Hnd) as Hloop.
  cbn [length Nat.add app drop] in Hloop.
  exists (after_deal (shuffle rnd deck) (zip_with dealt (shuffle rnd deck) (players s)) s).
  split_and!.
  - apply setup_game_after_loop; [done|]. apply Hloop. lia.
  - cbn. rewrite dealt_initial_roles by lia. unfold player_count.
    by rewrite take_drop, shuffle_Permutation.
  - apply dealt_roles_agree.
  - cbn. apply dealt_user_ids. lia.
  - cbn. rewrite length_drop. unfold player_count. lia.
  - done.
  - done.
  - done.
  - reflexivity.
Qed.

Lemma setup_game_deals_witness :
  ∃ s',
    setup_game (λ _, 0%nat) sample_deck (sample_state GamePhase.WAITING) = (Ok tt, s')
    ∧ (initial_role <$> players s') ++ center_cards s' ≡ₚ sample_deck
    ∧ Forall (λ p, initial_role p = current_role p) (players s')
    ∧ user_id <$> players s' = user_id <$> players (sample_state GamePhase.WAITING)
    ∧ length (center_cards s') = 2%nat
    ∧ phase s' = GamePhase.NIGHT
    ∧ night_action_order s' = [Role.WEREWOLF; Role.SEER; Role.THIEF]
    ∧ night_action_index s' = 0%nat
    ∧ get_current_night_role s' = Some Role.WEREWOLF.
Proof.
  apply setup_game_deals.
  - apply (bool_decide_unpack _). vm_compute. exact I.
  - reflexivity.
Defined.

(** ** The thief *)

Lemma thief_not_eligible s thief_id target_id :
  field_of initial_role s thief_id ≠ Some Role.THIEF →
  process_thief_action thief_id target_id s = (Ok None, s).
Proof.
  unfold field_of, process_thief_action. run_engine. intros Hrole.
  destruct (lookup_player s thief_id) as [[ti thief]|]; [|done]. cbn in Hrole.
  rewrite decide_True by congruence. done.
Qed.

Lemma thief_self_target s thief_id :
  process_thief_action thief_id (Some thief_id) s = (Ok None, s).
Proof.
  unfold process_thief_action. run_engine.
  destruct (lookup_player s thief_id) as [[ti thief]|] eqn:Ht; [|done].
  case_decide; [done|]. rewrite Ht. by rewrite decide_True.
Qed.

Lemma thief_unknown_target s thief_id target_id :
  ¬ in_roster s target_id →
  process_thief_action thief_id (Some target_id) s = (Ok None, s).
Proof.
  intros Hout%not_in_roster_lookup. unfold process_thief_action. run_engine.
  destruct (lookup_player s thief_id) as [[ti thief]|]; [|done].
  case_decide; [done|]. by rewrite Hout.
Qed.

Lemma thief_skip s thief_id :
  ∃ s', process_thief_action thief_id None s = (Ok None, s')
    ∧ initial_role <$> players s' = initial_role <$> players s
    ∧ current_role <$> players s' = current_role <$> players s
    ∧ user_id <$> players s' = user_id <$> players s.
Proof.
  unfold process_thief_action. run_engine.
  destruct (lookup_player s thief_id) as [[ti thief]|]; [|by exists s].
  case_decide; [by exists s|]. eexists. split; [done|]. cbn.
  by rewrite !alter_keeps_field.
Qed.

(** The state that a swap leaves, assignment by assignment. *)
Lemma thief_swap_run s thief_id target_id ti thief gi target :
  lookup_player s thief_id = Some (ti, thief) → initial_role thief = Role.THIEF →
  lookup_player s target_id = Some (gi, target) → thief_id ≠ target_id →
  process_thief_action thief_id (Some target_id) s
  = (Ok (Some (current_role target)),
     with_players
       (alter (set_has_acted true) ti
          (alter (set_night_action
                    (mkNightAction NightActionType.THIEF_SWAP (Some target_id)
                       (ThiefSwapped (username target) (current_role target)))) ti
             (alter (set_current_role (current_role thief)) gi
                (alter (set_current_role (current_role target)) ti (players s))))) s).
Proof.
  intros Ht Hrole Hg Hne. unfold process_thief_action. run_engine. rewrite Ht.
  rewrite decide_False by (by rewrite Hrole; intros []). rewrite Hg.
  by rewrite decide_False.
Qed.

(** What a swap does to the roles. *)
Lemma thief_swap_effect (s : GameState) (thief_id target_id : Z) :
  field_of initial_role s thief_id = Some Role.THIEF →
  in_roster s target_id → thief_id ≠ target_id →
  ∃ s',
    process_thief_action thief_id (Some target_id) s
    = (Ok (field_of current_role s target_id), s')
    ∧ field_of current_role s' thief_id = field_of current_role s target_id
    ∧ field_of current_role s' target_id = field_of current_role s thief_id
    ∧ (∀ uid, uid ≠ thief_id → uid ≠ target_id →
       field_of current_role s' uid = field_of current_role s uid)
    ∧ (∀ uid, field_of initial_role s' uid = field_of initial_role s uid)
    ∧ field_of has_acted s' thief_id = Some true
    ∧ initial_role <$> players s' = initial_role <$> players s
    ∧ user_id <$> players s' = user_id <$> players s.
Proof.
  intros Hthief [[gi target] Hg]%in_roster_lookup Hne.
  unfold field_of in Hthief.
  destruct (lookup_player s thief_id) as [[ti thief]|] eqn:Ht; [|done].
  cbn in Hthief.
  assert (ti ≠ gi) as Hslots.
  { intros ->. apply Hne. by eapply lookup_player_inj. }
  eexists. split.
  { rewrite (thief_swap_run s thief_id target_id ti thief gi target);
      [|done|congruence|done..]. unfold field_of. by rewrite Hg. }
  unfold field_of, lookup_player in *. cbn [players with_players].
  split_and!.
  - rewrite !find_alter, Ht, Hg by done. cbn. by decide_indices.
  - rewrite !find_alter, Ht, Hg by done. cbn. by decide_indices.
  - intros uid Hu1 Hu2. rewrite !find_alter by done.
    destruct (find uid (players s)) as [[j p]|] eqn:Hp; [|done]. cbn.
    assert (j ≠ ti) by (intros ->; apply Hu1; by eapply find_index_inj).
    assert (j ≠ gi) by (intros ->; apply Hu2; by eapply find_index_inj).
    by decide_indices.
  - intros uid. rewrite !find_alter by done.
    destruct (find uid (players s)) as [[j p]|] eqn:Hp; [|done]. cbn.
    by repeat case_decide.
  - rewrite !find_alter, Ht by done. cbn. by decide_indices.
  - by rewrite !alter_keeps_field.
  - by rewrite !alter_keeps_field.
Qed.

(** C6.  A thief who names another roster member exchanges current roles
    with that member: each of the two holds what the other held, nobody
    else's current role changes, and no initial role changes, the thief's
    included.  Naming oneself or an identity outside the roster fails
    without any change, and a skip changes no role. *)
Theorem process_thief_action_spec (s : GameState) (thief_id : Z) :
  (∀ target_id,
     field_of initial_role s thief_id = Some Role.THIEF →
     in_roster s target_id → thief_id ≠ target_id →
     ∃ s',
       process_thief_action thief_id (Some target_id) s
       = (Ok (field_of current_role s target_id), s')
       ∧ field_of current_role s' thief_id = field_of current_role s target_id
       ∧ field_of current_role s' target_id = field_of current_role s thief_id
       ∧ (∀ uid, uid ≠ thief_id → uid ≠ target_id →
          field_of current_role s' uid = field_of current_role s uid)
       ∧ (∀ uid, field_of initial_role s' uid = field_of initial_role s uid)
       ∧ initial_role <$> players s' = initial_role <$> players s
       ∧ user_id <$> players s' = user_id <$> players s)
  ∧ process_thief_action thief_id (Some thief_id) s = (Ok None, s)
  ∧ (∀ target_id, ¬ in_roster s target_id →
     process_thief_action thief_id (Some target_id) s = (Ok None, s))
  ∧ (∃ s',
       process_thief_action thief_id None s = (Ok None, s')
       ∧ initial_role <$> players s' = initial_role <$> players s
       ∧ current_role <$> players s' = current_role <$> players s).
Proof.
  split_and!.
  - intros target_id Hthief Hin Hne.
    destruct (thief_swap_effect s thief_id target_id Hthief Hin Hne)
      as (s' & ? & ? & ? & ? & ? & ? & ? & ?).
    exists s'. done.
  - apply thief_self_target.
  - apply thief_unknown_target.
  - destruct (thief_skip s thief_id) as (s' & ? & ? & ? & ?). eauto.
Qed.

Lemma process_thief_action_spec_witness :
  ∃ s',
    process_thief_action 1 (Some 3) (sample_state GamePhase.NIGHT)
    = (Ok (Some Role.WEREWOLF), s')
    ∧ field_of current_role s' 1 = Some Role.WEREWOLF
    ∧ field_of current_role s' 3 = Some Role.THIEF
    ∧ field_of current_role s' 2 = Some Role.SEER
    ∧ field_of initial_role s' 1 = Some Role.THIEF.
Proof.
  destruct (process_thief_action_spec (sample_state GamePhase.NIGHT) 1) as [Hswap _].
  destruct (Hswap 3) as (s' & Hrun & Hthief & Htarget & Hother & Hinit & _).
  - reflexivity.
  - apply (bool_decide_unpack _). vm_compute. exact I.
  - discriminate.
  - exists s'. split_and!; [exact Hrun|exact Hthief|exact Htarget| |apply Hinit].
    apply (Hother 2); discriminate.
Defined.

(** ** The seer *)

Lemma seer_player_not_eligible s seer_id target_id :
  field_of initial_role s seer_id ≠ Some Role.SEER →
  process_seer_action_player seer_id target_id s = (Ok None, s).
Proof.
  unfold field_of, process_seer_action_player. run_engine. intros Hrole.
  destruct (lookup_player s seer_id) as [[si seer]|]; [|done]. cbn in Hrole.
  destruct (lookup_player s target_id) as [[ti target]|]; [|done].
  rewrite decide_True by congruence. done.
Qed.

Lemma seer_center_not_eligible s seer_id :
  field_of initial_role s seer_id ≠ Some Role.SEER →
  process_seer_action_center seer_id s = (Ok None, s).
Proof.
  unfold field_of, process_seer_action_center. run_engine. intros Hrole.
  destruct (lookup_player s seer_id) as [[si seer]|]; [|done]. cbn in Hrole.
  rewrite decide_True by congruence. done.
Qed.

Lemma seer_self_target s seer_id :
  process_seer_action_player seer_id seer_id s = (Ok None, s).
Proof.
  unfold process_seer_action_player. run_engine.
  destruct (lookup_player s seer_id) as [[si seer]|]; [|done].
  case_decide; [done|]. by rewrite decide_True.
Qed.

Lemma seer_unknown_target s seer_id target_id :
  ¬ in_roster s target_id →
  process_seer_action_player seer_id target_id s = (Ok None, s).
Proof.
  intros Hout%not_in_roster_lookup. unfold process_seer_action_player. run_engine.
  rewrite Hout. by destruct (lookup_player s seer_id) as [[si seer]|].
Qed.

Lemma seer_player_run s seer_id target_id si seer ti target :
  lookup_player s seer_id = Some (si, seer) → initial_role seer = Role.SEER →
  lookup_player s target_id = Some (ti, target) → seer_id ≠ target_id →
  process_seer_action_player seer_id target_id s
  = (Ok (Some (current_role target)),
     with_players
       (alter (set_has_acted true) si
          (alter (set_night_action
                    (mkNightAction NightActionType.SEER_PLAYER (Some target_id)
                       (SeerSawPlayer (username target) (current_role target)))) si
             (players s))) s).
Proof.
  intros Hs Hrole Ht Hne. unfold process_seer_action_player. run_engine. rewrite Hs, Ht.
  rewrite decide_False by (by rewrite Hrole; intros []). by rewrite decide_False.
Qed.

Lemma seer_center_run s seer_id si seer r0 r1 rest :
  lookup_player s seer_id = Some (si, seer) → initial_role seer = Role.SEER →
  center_cards s = r0 :: r1 :: rest →
  process_seer_action_center seer_id s
  = (Ok (Some (center_cards s)),
     with_players
       (alter (set_has_acted true) si
          (alter (set_night_action
                    (mkNightAction NightActionType.SEER_CENTER None (SeerSawCenter r0 r1))) si
             (players s))) s).
Proof.
  intros Hs Hrole Hc. unfold process_seer_action_center. run_engine. rewrite Hs.
  rewrite decide_False by (by rewrite Hrole; intros []). by rewrite Hc.
Qed.

Lemma seer_center_raises s seer_id :
  field_of initial_role s seer_id = Some Role.SEER →
  (length (center_cards s) < 2)%nat →
  process_seer_action_center seer_id s = (Raise IndexError, s).
Proof.
  unfold field_of, process_seer_action_center. run_engine. intros Hrole Hlen.
  destruct (lookup_player s seer_id) as [[si seer]|]; [|done]. cbn in Hrole.
  rewrite decide_False by (intros Hn; apply Hn; congruence).
  destruct (center_cards s) as [|r0 [|r1 rest]]; cbn in *; [done..|lia].
Qed.

(** C7.  A seer who names another roster member is told the current role
    of that member, and the look is recorded for the seer without touching
    a role; naming oneself or an identity outside the roster yields the
    failure value and records nothing; a look at the center yields the two
    center cards in their order. *)
Theorem seer_actions_spec (s : GameState) (seer_id : Z) :
  field_of initial_role s seer_id = Some Role.SEER →
  (∀ target_id, in_roster s target_id → seer_id ≠ target_id →
     ∃ s',
       process_seer_action_player seer_id target_id s
       = (Ok (field_of current_role s target_id), s')
       ∧ is_Some (field_of current_role s target_id)
       ∧ field_of has_acted s' seer_id = Some true
       ∧ current_role <$> players s' = current_role <$> players s
       ∧ initial_role <$> players s' = initial_role <$> players s)
  ∧ process_seer_action_player seer_id seer_id s = (Ok None, s)
  ∧ (∀ target_id, ¬ in_roster s target_id →
     process_seer_action_player seer_id target_id s = (Ok None, s))
  ∧ (∀ r0 r1, center_cards s = [r0; r1] →
     ∃ s',
       process_seer_action_center seer_id s = (Ok (Some [r0; r1]), s')
       ∧ center_cards s' = [r0; r1]).
Proof.
  intros Hseer. unfold field_of in Hseer.
  destruct (lookup_player s seer_id) as [[si seer]|] eqn:Hs; [|done]. cbn in Hseer.
  assert (initial_role seer = Role.SEER) as Hrole by congruence.
  split_and!.
  - intros target_id [[ti target] Ht]%in_roster_lookup Hne. eexists. split.
    { rewrite (seer_player_run s seer_id target_id si seer ti target) by done.
      unfold field_of. by rewrite Ht. }
    unfold field_of, lookup_player in *. cbn [players with_players]. split_and!.
    + by rewrite Ht.
    + rewrite !find_alter, Hs by done. cbn. by decide_indices.
    + by rewrite !alter_keeps_field.
    + by rewrite !alter_keeps_field.
  - apply seer_self_target.
  - apply seer_unknown_target.
  - intros r0 r1 Hc. eexists. split.
    + rewrite (seer_center_run s seer_id si seer r0 r1 []) by done. by rewrite Hc.
    + done.
Qed.

Lemma seer_actions_spec_witness :
  field_of initial_role swapped_state 3 = Some Role.WEREWOLF
  ∧ (∃ s', process_seer_action_player 2 3 swapped_state = (Ok (Some Role.THIEF), s'))
  ∧ process_seer_action_player 2 2 swapped_state = (Ok None, swapped_state)
  ∧ process_seer_action_player 2 7 swapped_state = (Ok None, swapped_state)
  ∧ (∃ s', process_seer_action_center 2 swapped_state
           = (Ok (Some [Role.VILLAGER; Role.TANNER]), s')).
Proof.
  destruct (seer_actions_spec swapped_state 2 eq_refl)
    as (Hplayer & Hself & Hunknown & Hcenter).
  split_and!.
  - reflexivity.
  - destruct (Hplayer 3) as (s' & Hrun & _).
    + apply (bool_decide_unpack _). vm_compute. exact I.
    + discriminate.
    + exists s'. exact Hrun.
  - exact Hself.
  - apply Hunknown. apply (bool_decide_unpack _). vm_compute. exact I.
  - destruct (Hcenter Role.VILLAGER Role.TANNER eq_refl) as (s' & Hrun & _).
    exists s'. exact Hrun.
Defined.

(** ** Eligibility and the phase *)

Lemma thief_ignores_phase ph s thief_id target_id :
  process_thief_action thief_id target_id (with_phase ph s)
  = prod_map id (with_phase ph) (process_thief_action thief_id target_id s).
Proof.
  unfold process_thief_action. run_engine. unfold lookup_player. cbn [players with_phase].
  destruct (find thief_id (players s)) as [[ti thief]|]; [|done].
  case_decide; [done|]. destruct target_id as [target_id|]; [|done].
  cbn [players with_phase].
  destruct (find target_id (players s)) as [[gi target]|]; [|done].
  by case_decide.
Qed.

Lemma seer_player_ignores_phase ph s seer_id target_id :
  process_seer_action_player seer_id target_id (with_phase ph s)
  = prod_map id (with_phase ph) (process_seer_action_player seer_id target_id s).
Proof.
  unfold process_seer_action_player. run_engine. unfold lookup_player.
  cbn [players with_phase].
  destruct (find seer_id (players s)) as [[si seer]|]; [|done].
  destruct (find target_id (players s)) as [[ti target]|]; [|done].
  case_decide; [done|]. by case_decide.
Qed.

Lemma seer_center_ignores_phase ph s seer_id :
  process_seer_action_center seer_id (with_phase ph s)
  = prod_map id (with_phase ph) (process_seer_action_center seer_id s).
Proof.
  unfold process_seer_action_center. run_engine. unfold lookup_player.
  cbn [players center_cards with_phase].
  destruct (find seer_id (players s)) as [[si seer]|]; [|done].
  case_decide; [done|]. cbn [center_cards with_phase].
  by destruct (center_cards s) as [|r0 [|r1 rest]].
Qed.

(** C8 (as amended).  A seer action asked for a player whose initial role
    is not Seer, and a thief action asked for a player whose initial role is
    not Thief, yield the failure value and leave the state as it is.  The
    phase is not looked at: in any phase an action does what it does in any
    other. *)
Theorem night_action_not_eligible (s : GameState) (uid : Z) :
  (field_of initial_role s uid ≠ Some Role.SEER →
   (∀ target_id, process_seer_action_player uid target_id s = (Ok None, s))
   ∧ process_seer_action_center uid s = (Ok None, s))
  ∧ (field_of initial_role s uid ≠ Some Role.THIEF →
     ∀ target_id, process_thief_action uid target_id s = (Ok None, s))
  ∧ (∀ ph target_id,
       process_thief_action uid target_id (with_phase ph s)
       = prod_map id (with_phase ph) (process_thief_action uid target_id s))
  ∧ (∀ ph target_id,
       process_seer_action_player uid target_id (with_phase ph s)
       = prod_map id (with_phase ph) (process_seer_action_player uid target_id s))
  ∧ (∀ ph,
       process_seer_action_center uid (with_phase ph s)
       = prod_map id (with_phase ph) (process_seer_action_center uid s)).
Proof.
  split_and!.
  - intros Hrole. split.
    + intros target_id. by apply seer_player_not_eligible.
    + by apply seer_center_not_eligible.
  - intros Hrole target_id. by apply thief_not_eligible.
  - intros. apply thief_ignores_phase.
  - intros. apply seer_player_ignores_phase.
  - intros. apply seer_center_ignores_phase.
Qed.

Lemma night_action_not_eligible_witness :
  process_seer_action_player 3 1 (sample_state GamePhase.NIGHT)
  = (Ok None, sample_state GamePhase.NIGHT)
  ∧ process_seer_action_center 3 (sample_state GamePhase.NIGHT)
    = (Ok None, sample_state GamePhase.NIGHT)
  ∧ process_thief_action 2 (Some 3) (sample_state GamePhase.NIGHT)
    = (Ok None, sample_state GamePhase.NIGHT).
Proof.
  destruct (night_action_not_eligible (sample_state GamePhase.NIGHT) 3) as (Hseer & _).
  destruct (night_action_not_eligible (sample_state GamePhase.NIGHT) 2) as (_ & Hthief & _).
  destruct Hseer as [Hplayer Hcenter]; [discriminate|].
  split_and!; [apply Hplayer|exact Hcenter|apply Hthief; discriminate].
Defined.

(** C8, as stated, asks that an action in the wrong phase be rejected
    without a change; during the vote the thief still swaps. *)
Lemma thief_swaps_during_vote :
  phase (sample_state GamePhase.VOTING) = GamePhase.VOTING
  ∧ field_of current_role (sample_state GamePhase.VOTING) 1 = Some Role.THIEF
  ∧ (process_thief_action 1 (Some 3) (sample_state GamePhase.VOTING)).1
    = Ok (Some Role.WEREWOLF)
  ∧ field_of current_role
      (process_thief_action 1 (Some 3) (sample_state GamePhase.VOTING)).2 1
    = Some Role.WEREWOLF
  ∧ field_of has_acted
      (process_thief_action 1 (Some 3) (sample_state GamePhase.VOTING)).2 1
    = Some true.
Proof. split_and!; reflexivity. Qed.

(** ** A thief who has acted *)

Lemma thief_check_has_acted game thieves message :
  field_of has_acted game (author_id message) = Some true →
  thief_check game thieves message = false.
Proof.
  unfold field_of, thief_check. intros Hacted.
  destruct (guild message); [done|]. case_decide; [done|].
  destruct (lookup_player game (author_id message)) as [[i player]|]; [|done].
  cbn in Hacted. by destruct (has_acted player); simplify_eq.
Qed.

(** C9 (as amended).  A swap sets the thief's [has_acted], and the front
    end's filter hands no further command of a player with [has_acted] set
    to the engine.  [process_thief_action] itself does not read the flag:
    called once more for the same thief and any other roster member, it
    exchanges the two current roles again. *)
Theorem thief_swap_marks_acted (s : GameState) (thief_id target_id : Z) :
  field_of initial_role s thief_id = Some Role.THIEF →
  in_roster s target_id → thief_id ≠ target_id →
  ∃ s1,
    process_thief_action thief_id (Some target_id) s
    = (Ok (field_of current_role s target_id), s1)
    ∧ field_of has_acted s1 thief_id = Some true
    ∧ (∀ thieves message,
         author_id message = thief_id → thief_check s1 thieves message = false)
    ∧ (∀ other, in_roster s other → thief_id ≠ other →
       ∃ s2,
         process_thief_action thief_id (Some other) s1
         = (Ok (field_of current_role s1 other), s2)
         ∧ field_of current_role s2 thief_id = field_of current_role s1 other
         ∧ field_of current_role s2 other = field_of current_role s1 thief_id).
Proof.
  intros Hthief Hin Hne.
  destruct (thief_swap_effect s thief_id target_id Hthief Hin Hne)
    as (s1 & Hrun & _ & _ & _ & Hinit & Hacted & _ & Hids).
  exists s1. split_and!; [done..| |].
  - intros thieves message <-. by apply thief_check_has_acted.
  - intros other Hother Hne'.
    destruct (thief_swap_effect s1 thief_id other) as (s2 & Hrun2 & ? & ? & _).
    + by rewrite Hinit.
    + unfold in_roster in *. by rewrite Hids.
    + done.
    + by exists s2.
Qed.

Lemma thief_swap_marks_acted_witness :
  ∃ s1,
    process_thief_action 1 (Some 2) (sample_state GamePhase.NIGHT)
    = (Ok (Some Role.SEER), s1)
    ∧ field_of has_acted s1 1 = Some true
    ∧ thief_check s1 sample_roster (mkMessage None 1 "!thief cid") = false.
Proof.
  destruct (thief_swap_marks_acted (sample_state GamePhase.NIGHT) 1 2)
    as (s1 & Hrun & Hacted & Hcheck & _).
  - reflexivity.
  - apply (bool_decide_unpack _). vm_compute. exact I.
  - discriminate.
  - exists s1. split_and!; [exact Hrun|exact Hacted|]. by apply Hcheck.
Defined.

(** C9, as stated, says that the engine applies no second swap for a thief
    who has acted; a second call swaps again. *)
Lemma thief_swaps_twice :
  let s1 := (process_thief_action 1 (Some 2) (sample_state GamePhase.NIGHT)).2 in
  let s2 := (process_thief_action 1 (Some 3) s1).2 in
  field_of has_acted s1 1 = Some true
  ∧ field_of current_role s1 1 = Some Role.SEER
  ∧ (process_thief_action 1 (Some 3) s1).1 = Ok (Some Role.WEREWOLF)
  ∧ field_of current_role s2 1 = Some Role.WEREWOLF
  ∧ field_of current_role s2 3 = Some Role.SEER.
Proof. cbv zeta. split_and!; reflexivity. Qed.

(** ** The center before the deal *)

(** C10.  For a seer, [process_seer_action_center] returns only when two
    cards lie in the center: with fewer it raises the indexing error and
    leaves the state as it is, instead of returning the failure value; with
    two or more it returns the center cards. *)
Theorem seer_center_needs_two_cards (s : GameState) (seer_id : Z) :
  field_of initial_role s seer_id = Some Role.SEER →
  ((length (center_cards s) < 2)%nat →
   process_seer_action_center seer_id s = (Raise IndexError, s))
  ∧ ((2 ≤ length (center_cards s))%nat →
     ∃ s', process_seer_action_center seer_id s = (Ok (Some (center_cards s)), s')).
Proof.
  intros Hseer. split; [by apply seer_center_raises|]. intros Hlen.
  unfold field_of in Hseer.
  destruct (lookup_player s seer_id) as [[si seer]|] eqn:Hs; [|done]. cbn in Hseer.
  destruct (center_cards s) as [|r0 [|r1 rest]] eqn:Hc; cbn in Hlen; [lia..|].
  eexists. rewrite <- Hc. eapply seer_center_run; [done|congruence|done].
Qed.

Lemma seer_center_needs_two_cards_witness :
  process_seer_action_center 2 empty_center_state = (Raise IndexError, empty_center_state)
  ∧ ∃ s', process_seer_action_center 2 (sample_state GamePhase.NIGHT)
          = (Ok (Some [Role.VILLAGER; Role.TANNER]), s').
Proof.
  split.
  - apply (seer_center_needs_two_cards empty_center_state 2 eq_refl). cbn. lia.
  - apply (seer_center_needs_two_cards (sample_state GamePhase.NIGHT) 2 eq_refl). cbn. lia.
Defined.

(** ** More on the tally *)

(** X1.  [calculate_votes] never raises (its [elif] branch is never
    reached) and leaves the state as it is; the keys of its tally are the
    roster members and [-1], and the count under a key is the number of
    players whose vote is that key.  A vote for anything else is counted
    nowhere. *)
Theorem calculate_votes_spec (s : GameState) :
  ∃ vote_counts,
    calculate_votes s = (Ok vote_counts, s)
    ∧ (∀ k, is_identity s k → vote_counts !! k = Some (votes_for s k))
    ∧ (∀ k, ¬ is_identity s k → vote_counts !! k = None).
Proof.
  destruct (calculate_votes_run s) as (vc & Hrun & Hvc). exists vc.
  split_and!; [done| |]; intros k Hk; rewrite Hvc.
  - by rewrite decide_True.
  - by rewrite decide_False.
Qed.

Lemma tally_total_bump (vc : gmap Z nat) (t : Z) (n : nat) :
  vc !! t = Some n → tally_total (<[t := S n]> vc) = S (tally_total vc).
Proof.
  intros Ht. unfold tally_total.
  rewrite <- (insert_delete_eq vc t (S n)).
  rewrite <- (insert_delete_id vc t n Ht) at 2.
  rewrite !map_to_list_insert by apply lookup_delete_eq. done.
Qed.

Lemma tally_total_zero (vc : gmap Z nat) :
  (∀ k n, vc !! k = Some n → n = 0%nat) → tally_total vc = 0%nat.
Proof.
  intros Hzero. unfold tally_total.
  assert (Forall (λ item : Z * nat, item.2 = 0%nat) (map_to_list vc)) as Hall.
  { apply Forall_forall. intros [k n] Hin%elem_of_map_to_list. by eapply Hzero. }
  induction Hall as [|[k n] l Hn _ IH]; [done|]. cbn in *. by rewrite Hn, IH.
Qed.

(** The counting loop adds one to the total for each vote whose target is
    a key, and keeps the keys. *)
Lemma count_votes_total (l : list Player) (vc : gmap Z nat) (s : GameState) :
  is_Some (vc !! (-1)) →
  ∃ vc', for_each count_vote l vc s = (Ok vc', s)
    ∧ (∀ k, is_Some (vc' !! k) ↔ is_Some (vc !! k))
    ∧ tally_total vc'
      = (tally_total vc
         + length (filter (λ p, is_Some (vote_target_id p ≫= λ k, vc !! k)) l))%nat.
Proof.
  revert vc. induction l as [|p l IH]; intros vc Hpeace.
  - exists vc. split_and!; [done..|]. cbn. lia.
  - cbn [for_each]. unfold count_vote at 1. rewrite filter_cons.
    destruct (vote_target_id p) as [t|] eqn:Hp.
    + destruct (vc !! t) as [n|] eqn:Ht.
      * assert (∀ k, is_Some (<[t := S n]> vc !! k) ↔ is_Some (vc !! k)) as Hkeys.
        { intros k. rewrite lookup_insert. case_decide; [|done]. subst. rewrite Ht.
          split; eauto. }
        destruct (IH (<[t := S n]> vc)) as (vc' & Hrun & Hdom & Htotal);
          [by apply Hkeys|].
        exists vc'. split_and!.
        -- by rewrite (bind_ok _ _ s (<[t := S n]> vc) s).
        -- intros k. by rewrite Hdom, Hkeys.
        -- rewrite Htotal, (tally_total_bump vc t n Ht).
           rewrite decide_True by (cbn; rewrite Ht; eauto). cbn [length].
           rewrite (list_filter_iff
                      (λ p, is_Some (vote_target_id p ≫= λ k, <[t := S n]> vc !! k))
                      (λ p, is_Some (vote_target_id p ≫= λ k, vc !! k))); [lia|].
           intros q. destruct (vote_target_id q) as [k|]; cbn; [apply Hkeys|done].
      * rewrite decide_False by (intros ->; rewrite Ht in Hpeace; by destruct Hpeace).
        destruct (IH vc Hpeace) as (vc' & Hrun & Hdom & Htotal).
        exists vc'. split_and!; [by rewrite (bind_ok _ _ s vc s)|done|].
        rewrite decide_False by (cbn; rewrite Ht; by intros []). done.
    + destruct (IH vc Hpeace) as (vc' & Hrun & Hdom & Htotal).
      exists vc'. split_and!; [by rewrite (bind_ok _ _ s vc s)|done|].
      rewrite decide_False by (by intros []). done.
Qed.

(** X2.  Every vote for a roster member or for [-1] is counted once: the
    counts of the tally add up to the number of players with such a vote,
    which is at most the number of players. *)
Theorem calculate_votes_total (s : GameState) :
  ∃ vote_counts,
    calculate_votes s = (Ok vote_counts, s)
    ∧ tally_total vote_counts = counted_votes s
    ∧ (counted_votes s ≤ player_count s)%nat.
Proof.
  unfold calculate_votes. run_engine.
  edestruct (count_votes_total (players s)) as (vc & Hrun & _ & Htotal);
    [|exists vc; split; [exact Hrun|]].
  { by rewrite lookup_insert_eq. }
  split; [|apply length_filter].
  rewrite Htotal, tally_total_zero.
  - unfold counted_votes. cbn. apply (f_equal length), list_filter_iff. intros p.
    destruct (vote_target_id p) as [k|]; cbn.
    + rewrite lookup_insert, initial_tally_lookup, elem_of_cons, (list_elem_of_fmap Some).
      split.
      * intros Hk. destruct (decide (-1 = k)) as [<-|]; [by left|]. right.
        exists k. split; [done|].
        by destruct (decide (k ∈ user_id <$> players s)); [|destruct Hk].
      * intros [[= ->]|(j & [= <-] & Hj)]; [by rewrite decide_True|].
        case_decide; [done|]. by rewrite decide_True.
    + rewrite elem_of_cons, list_elem_of_fmap. split; [by intros []|].
      by intros [?|(j & ? & _)].
  - intros k n. rewrite lookup_insert, initial_tally_lookup.
    repeat case_decide; congruence.
Qed.

Lemma votes_for_after_vote (ps : list Player) (i : nat) (p : Player) (t k : Z) :
  ps !! i = Some p → vote_target_id p = None →
  length (filter (λ q, vote_target_id q = Some k)
                 (alter (set_vote_target_id (Some t)) i ps))
  = ((if decide (k = t) then 1 else 0)
     + length (filter (λ q, vote_target_id q = Some k) ps))%nat.
Proof.
  revert i. induction ps as [|q ps IH]; intros [|i] Hi Hnone; [done..| |].
  - injection Hi as ->. change (alter ?f 0%nat (p :: ps)) with (f p :: ps).
    rewrite !filter_cons. cbn [vote_target_id set_vote_target_id]. rewrite Hnone.
    rewrite (decide_False (P := None = Some k)) by done.
    destruct (decide (k = t)) as [->|Hne].
    + by rewrite decide_True.
    + by rewrite decide_False by congruence.
  - change (alter ?f (S i) (q :: ps)) with (q :: alter f i ps).
    rewrite !filter_cons.
    destruct (decide (vote_target_id q = Some k)); cbn [length]; rewrite (IH i) by done; lia.
Qed.

(** X3.  An accepted vote shows in the tally as one more vote for its
    target and nothing else: the count of the target grows by one and the
    count of every other identity stays. *)
Theorem register_vote_counts (s : GameState) (voter_id target_id : Z) :
  ∀ s', register_vote voter_id target_id s = (Ok true, s') →
  votes_for s' target_id = S (votes_for s target_id)
  ∧ (∀ k, k ≠ target_id → votes_for s' k = votes_for s k)
  ∧ (∀ k, is_identity s' k ↔ is_identity s k).
Proof.
  intros s'. unfold register_vote. run_engine.
  destruct (lookup_player s voter_id) as [[i p]|] eqn:Hv; [|by destruct (lookup_player s _)].
  destruct (lookup_player s target_id) as [[j q]|]; [|done].
  case_decide; [done|]. destruct (vote_target_id p) eqn:Hp; [done|].
  intros [= <-]. apply lookup_player_user_id in Hv as [Hi _].
  unfold votes_for, is_identity, in_roster. cbn. split_and!.
  - rewrite (votes_for_after_vote _ _ _ _ _ Hi Hp). by rewrite decide_True.
  - intros k Hk. rewrite (votes_for_after_vote _ _ _ _ _ Hi Hp).
    by rewrite decide_False.
  - intros k. by rewrite alter_keeps_field.
Qed.

Lemma register_vote_counts_witness :
  votes_for (register_vote 1 2 (sample_state GamePhase.VOTING)).2 2 = 1%nat
  ∧ votes_for (register_vote 1 2 (sample_state GamePhase.VOTING)).2 3 = 0%nat.
Proof.
  destruct (register_vote_counts (sample_state GamePhase.VOTING) 1 2 _ eq_refl)
    as (Htarget & Hother & _).
  split; [exact Htarget|]. by apply Hother.
Defined.

(** ** More on the execution *)

(** The four ways through [determine_execution], with what each returns
    and writes. *)
Lemma determine_execution_run (s : GameState) :
  ∃ r s',
    determine_execution s = (Ok r, s')
    ∧ ( (max_is_zero s ∧ r = [] ∧ s' = s)
      ∨ (¬ max_is_zero s ∧ tie_for_max s ∧ r = [] ∧ s' = s)
      ∨ (¬ max_is_zero s ∧ ¬ tie_for_max s ∧ peace_wins s ∧ r = []
         ∧ s' = with_executed_player_ids [] s)
      ∨ (∃ a, ¬ no_execution s ∧ in_roster s a ∧ a ≠ -1 ∧ (0 < votes_for s a)%nat
              ∧ is_max_holder s a ∧ (∀ b, is_max_holder s b → b = a)
              ∧ r = [a] ∧ s' = with_executed_player_ids [a] s) ).
Proof.
  destruct (calculate_votes_run s) as (vc & Hrun & Hvc).
  pose proof (tally_nonempty s vc Hvc) as Hne.
  pose proof (λ k, max_holder_lookup s vc k Hvc) as Hholder.
  pose proof (max_voted_elem vc) as Helem.
  pose proof (max_voted_NoDup vc) as Hnodup.
  pose proof (max_votes_bound vc) as Hbound.
  destruct (max_votes_attained vc Hne) as (top & Htop).
  unfold determine_execution. rewrite (bind_ok _ _ _ _ _ Hrun).
  rewrite decide_False by done.
  set (max_votes := max_list (snd <$> map_to_list vc)) in *.
  set (max_voted := fst <$> filter (λ item, item.2 = max_votes) (map_to_list vc)) in *.
  destruct (decide (max_votes = 0%nat)) as [Hzero|Hpos].
  { exists [], s. split; [done|]. left. split; [|done]. intros k Hk.
    pose proof (Hvc k) as Hkk. rewrite decide_True in Hkk by done.
    apply Hbound in Hkk. lia. }
  assert (¬ max_is_zero s) as Hvotes.
  { intros Hz. pose proof Htop as Htop'. rewrite Hvc in Htop'.
    destruct (decide (is_identity s top)) as [Hid|]; [|done].
    apply Hz in Hid. rewrite Hid in Htop'. by injection Htop' as <-. }
  destruct (decide (1 < length max_voted)%nat) as [Hmany|Hfew].
  { exists [], s. split; [done|]. right. left. split_and!; [done| |done..].
    destruct max_voted as [|a [|b l]] eqn:Hmv; cbn in Hmany; [lia..|].
    exists a, b. split_and!.
    - apply NoDup_cons in Hnodup as [Ha _]. intros ->. apply Ha. by left.
    - apply Hholder, Helem. by left.
    - apply Hholder, Helem. right. by left. }
  destruct max_voted as [|uid rest] eqn:Hmv.
  { apply Helem in Htop. by apply elem_of_nil in Htop. }
  assert (rest = []) as -> by (destruct rest; [done|cbn in Hfew; lia]).
  assert (∀ b, is_max_holder s b → b = uid) as Honly.
  { intros b Hb%Hholder%Helem. by apply list_elem_of_singleton in Hb. }
  assert (is_max_holder s uid) as Huid by (apply Hholder, Helem; by left).
  assert (¬ tie_for_max s) as Hnotie.
  { intros (a & b & Hab & Ha%Honly & Hb%Honly). congruence. }
  destruct (decide (uid = -1)) as [->|Hreal].
  { eexists [], _. split; [done|]. right. right. left. done. }
  eexists [uid], _. split; [done|]. do 3 right. exists uid.
  assert (vc !! uid = Some max_votes) as Hm by (apply Helem; by left).
  pose proof (Hvc uid) as Hu. rewrite decide_True in Hu by apply Huid.
  rewrite Hm in Hu. injection Hu as Hu.
  split_and!; [|by destruct Huid as [[?|?] _]|done|lia|done..].
  intros [Hz|[Ht|[Hp _]]]; [done..|]. apply Honly in Hp. congruence.
Qed.

(** X4.  [determine_execution] writes nothing but [executed_player_ids].
    When there is no vote or a tie it writes nothing at all, so that a list
    stored before stays; in every other case it stores what it returns. *)
Theorem determine_execution_effect (s : GameState) :
  ∃ r s',
    determine_execution s = (Ok r, s')
    ∧ (max_is_zero s ∨ tie_for_max s → s' = s)
    ∧ (¬ max_is_zero s → ¬ tie_for_max s → s' = with_executed_player_ids r s).
Proof.
  destruct (determine_execution_run s) as (r & s' & Hrun & Hcase).
  exists r, s'. split; [exact Hrun|].
  destruct Hcase as [(? & -> & ->)|[(? & ? & -> & ->)|[(? & ? & ? & -> & ->)
       |(a & Hno & ? & ? & ? & ? & ? & -> & ->)]]]; split; try done.
  - by intros [?|?].
  - intros Hno'. destruct Hno. unfold no_execution. tauto.
Qed.

(** X5.  Running [determine_execution] once more on the state it left
    returns the same list and changes nothing. *)
Theorem determine_execution_again (s : GameState) :
  ∃ r s',
    determine_execution s = (Ok r, s') ∧ determine_execution s' = (Ok r, s').
Proof.
  destruct (determine_execution_run s) as (r & s' & Hrun & Hcase).
  exists r, s'. split; [done|].
  destruct (determine_execution_run s') as (r2 & s2 & Hrun2 & Hcase2).
  rewrite Hrun2.
  destruct Hcase as [(Hz1 & -> & ->)|[(Hnz1 & Ht1 & -> & ->)|[(Hnz1 & Hnt1 & Hp1 & -> & ->)
       |(a & Hno & _ & _ & _ & Ha & Hua & -> & ->)]]];
    destruct Hcase2 as [(Hz2 & -> & ->)|[(Hnz2 & Ht2 & -> & ->)
       |[(Hnz2 & Hnt2 & Hp2 & -> & ->)|(b & Hno2 & _ & _ & _ & Hb & Hub & -> & ->)]]];
    unfold no_execution in *;
    change (max_is_zero (with_executed_player_ids ?e s)) with (max_is_zero s) in *;
    change (tie_for_max (with_executed_player_ids ?e s)) with (tie_for_max s) in *;
    change (peace_wins (with_executed_player_ids ?e s)) with (peace_wins s) in *;
    change (is_max_holder (with_executed_player_ids ?e s) ?k) with (is_max_holder s k) in *;
    try done; try tauto.
  apply Hua in Hb. by subst.
Qed.

Lemma votes_for_two (s : GameState) (a b : Z) :
  a ≠ b → (votes_for s a + votes_for s b ≤ length (players s))%nat.
Proof.
  intros Hab. unfold votes_for. induction (players s) as [|p ps IH]; [done|].
  rewrite !filter_cons.
  destruct (decide (vote_target_id p = Some a)) as [Ha|];
    destruct (decide (vote_target_id p = Some b)) as [Hb|]; cbn [length]; try lia.
  congruence.
Qed.

(** X6.  An identity with the votes of more than half of the players
    decides the execution: a roster member with such a majority is the one
    executed, and a majority for [-1] means that nobody is. *)
Theorem majority_decides (s : GameState) (a : Z) :
  is_identity s a → (length (players s) < 2 * votes_for s a)%nat →
  (determine_execution s).1 = Ok (if decide (a = -1) then [] else [a]).
Proof.
  intros Hid Hmaj.
  assert (∀ b, is_identity s b → b ≠ a → (votes_for s b < votes_for s a)%nat) as Hless.
  { intros b _ Hne. pose proof (votes_for_two s b a Hne). lia. }
  assert (is_max_holder s a) as Hmax.
  { split; [done|]. intros j Hj. destruct (decide (j = a)) as [->|Hne]; [done|].
    specialize (Hless j Hj Hne). lia. }
  assert (∀ b, is_max_holder s b → b = a) as Honly.
  { intros b [Hb Hbmax]. destruct (decide (b = a)) as [|Hne]; [done|].
    specialize (Hless b Hb Hne). specialize (Hbmax a Hid). lia. }
  destruct (determine_execution_run s) as (r & s' & -> & Hcase). cbn.
  destruct Hcase as [(Hz & -> & _)|[(_ & (x & y & Hxy & Hx%Honly & Hy%Honly) & _)
       |[(_ & _ & [Hp _] & -> & _)|(b & _ & _ & Hb & _ & Hbmax & Hub & -> & _)]]].
  - specialize (Hz a Hid). lia.
  - congruence.
  - apply Honly in Hp. by rewrite decide_True.
  - apply Hub in Hmax. subst. by rewrite decide_False.
Qed.

Lemma majority_decides_witness :
  (determine_execution (voting_state [2; 1; 1; 1])).1 = Ok [1]
  ∧ (determine_execution (voting_state [-1; -1; -1; -1; 1])).1 = Ok [].
Proof.
  split.
  - apply (majority_decides (voting_state [2; 1; 1; 1]) 1).
    + right. apply (bool_decide_unpack _). vm_compute. exact I.
    + vm_compute. lia.
  - apply (majority_decides (voting_state [-1; -1; -1; -1; 1]) (-1)).
    + by left.
    + vm_compute. lia.
Defined.

(** ** From the execution to the winner *)

(** X7.  On a state with no execution stored, [determine_execution]
    followed by [determine_winner] decides the game by the player it has
    executed: the Tanner alone wins when that player holds the Tanner card,
    the village when it holds a Werewolf card, the werewolves otherwise;
    when nobody is executed the werewolves win if one of the players holds
    a Werewolf card and the village if none does. *)
Theorem execution_then_winner (s : GameState) :
  executed_player_ids s = [] →
  ∃ r s1 w,
    determine_execution s = (Ok r, s1)
    ∧ determine_winner s1 = (Ok w, with_winners w s1)
    ∧ executed_player_ids s1 = r
    ∧ (r = [] →
       (someone_holds s Role.WEREWOLF → w = [Team.WEREWOLF])
       ∧ (¬ someone_holds s Role.WEREWOLF → w = [Team.VILLAGE]))
    ∧ (∀ a, r = [a] →
       ∃ role,
         field_of current_role s a = Some role
         ∧ w = match role with
               | Role.TANNER => [Team.TANNER]
               | Role.WEREWOLF => [Team.VILLAGE]
               | _ => [Team.WEREWOLF]
               end).
Proof.
  intros Hfresh.
  destruct (determine_execution_run s) as (r & s1 & Hrun & Hcase).
  destruct (determine_winner_run s1) as (w & Hwin & Hrules).
  exists r, s1, w. split_and!; [done..| | |].
  - destruct Hcase as [(_ & -> & ->)|[(_ & _ & -> & ->)|[(_ & _ & _ & -> & ->)
       |(a & _ & _ & _ & _ & _ & _ & -> & ->)]]]; done.
  - intros ->.
    assert (executed_player_ids s1 = [] ∧ players s1 = players s) as [Hex Hps].
    { destruct Hcase as [(_ & _ & ->)|[(_ & _ & _ & ->)|[(_ & _ & _ & _ & ->)
         |(a & _ & _ & _ & _ & _ & _ & ? & _)]]]; done. }
    assert (∀ role, ¬ executed_holds s1 role) as Hnone.
    { intros role (uid & Huid & _). rewrite Hex in Huid. by apply elem_of_nil in Huid. }
    assert (someone_holds s1 Role.WEREWOLF ↔ someone_holds s Role.WEREWOLF) as Hsame
      by (unfold someone_holds; by rewrite Hps).
    unfold winner_rules in Hrules. rewrite Hsame in Hrules.
    destruct Hrules as [[Ht _]|[(_ & _ & ? & ->)|[(_ & _ & ? & ->)|[(_ & ? & _)
         |(_ & ? & _)]]]]; try done; by apply Hnone in Ht.
  - intros a ->.
    destruct Hcase as [(_ & ? & _)|[(_ & _ & ? & _)|[(_ & _ & _ & ? & _)
         |(b & _ & Hin & _ & _ & _ & _ & [= <-] & ->)]]]; try done.
    apply in_roster_lookup in Hin as [[i p] Hp].
    exists (current_role p). unfold field_of. rewrite Hp. split; [done|].
    assert (∀ role, executed_holds (with_executed_player_ids [a] s) role
                    ↔ current_role p = role) as Hheld.
    { intros role. unfold executed_holds, field_of, lookup_player. cbn. split.
      - intros (uid & ->%list_elem_of_singleton & Hrole).
        unfold lookup_player in Hp. rewrite Hp in Hrole. by simplify_eq/=.
      - intros <-. exists a. split; [by apply list_elem_of_singleton|].
        unfold lookup_player in Hp. by rewrite Hp. }
    unfold winner_rules in Hrules. rewrite !Hheld in Hrules. cbn in Hrules.
    destruct Hrules as [[-> ->]|[(_ & ? & _)|[(_ & ? & _)|[(? & _ & -> & ->)
         |(? & _ & ? & ->)]]]]; try done.
    by destruct (current_role p).
Qed.

Lemma execution_then_winner_witness :
  ∃ s1 w,
    determine_execution (voting_state [2; 1; 1; 1]) = (Ok [1], s1)
    ∧ determine_winner s1 = (Ok w, with_winners w s1)
    ∧ w = [Team.WEREWOLF].
Proof.
  destruct (execution_then_winner (voting_state [2; 1; 1; 1]) eq_refl)
    as (r & s1 & w & Hrun & Hwin & _ & _ & Hone).
  assert (r = [1]) as -> by (vm_compute in Hrun; by injection Hrun as <-).
  exists s1, w. split_and!; [exact Hrun|exact Hwin|].
  destruct (Hone 1 eq_refl) as (role & Hrole & ->).
  vm_compute in Hrole. by injection Hrole as <-.
Defined.

(** ** The texts after the vote *)





(** X9.  After [determine_winner] the text of the winner is one of three:
    for the Tanner it names a roster member who holds the Tanner card and
    is among the executed, and otherwise it is the text of the village or
    of the werewolves, as [determine_winner] returned.  The texts for no
    winner, for a Tanner team without a name and for an unknown result do
    not occur. *)
Theorem winner_message_after (s : GameState) :
  ∃ w,
    determine_winner s = (Ok w, with_winners w s)
    ∧ match get_winner_message (with_winners w s) with
      | TannerAlone name =>
          w = [Team.TANNER]
          ∧ ∃ p, p ∈ players s ∧ username p = name ∧ current_role p = Role.TANNER
                 ∧ user_id p ∈ executed_player_ids s
      | VillageWins => w = [Team.VILLAGE]
      | WerewolfWins => w = [Team.WEREWOLF]
      | NoWinner | TannerTeam | ResultUnknown => False
      end.
Proof.
  destruct (determine_winner_run s) as (w & Hrun & Hrules). exists w. split; [done|].
  unfold get_winner_message. cbn [winners with_winners players executed_player_ids].
  destruct Hrules as [[Ht ->]|[(_ & _ & _ & ->)|[(_ & _ & _ & ->)|[(_ & _ & _ & ->)
       |(_ & _ & _ & ->)]]]]; try done.
  rewrite decide_False by done. rewrite decide_True by (by left).
  destruct Ht as (uid & Huid & Hrole). unfold field_of in Hrole.
  destruct (lookup_player s uid) as [[i p]|] eqn:Hp; [|done].
  apply lookup_player_user_id in Hp as [Hi <-]. cbn in Hrole.
  assert (p ∈ filter (λ q, current_role q = Role.TANNER
                           ∧ user_id q ∈ executed_player_ids s) (players s)) as Hin.
  { apply list_elem_of_filter. split; [split; [congruence|done]|].
    by eapply list_elem_of_lookup_2. }
  destruct (filter _ (players s)) as [|q l] eqn:Hf; [by apply elem_of_nil in Hin|].
  assert (q ∈ filter (λ q, current_role q = Role.TANNER
                           ∧ user_id q ∈ executed_player_ids s) (players s)) as Hq
    by (rewrite Hf; by left).
  apply list_elem_of_filter in Hq as [[? ?] ?]. split; [done|]. by exists q.
Qed.

(** ** The night order *)

Lemma advance_night_phase_run (s : GameState) :
  advance_night_phase s
  = (Ok (night_action_order s !! S (night_action_index s)),
     with_night_action_index (S (night_action_index s)) s).
Proof.
  unfold advance_night_phase. run_engine. rewrite Nat.add_1_r. f_equal. f_equal.
  unfold get_current_night_role. cbn. case_decide as Hlen; [|done].
  symmetry. by apply lookup_ge_None.
Qed.

Lemma advances_run (s : GameState) (n : nat) :
  Nat.iter n (λ st, (advance_night_phase st).2) s
  = with_night_action_index (night_action_index s + n) s.
Proof.
  induction n as [|n IH].
  - cbn. rewrite Nat.add_0_r. by destruct s.
  - rewrite Nat.iter_succ, IH, advance_night_phase_run. cbn. by rewrite Nat.add_succ_r.
Qed.

(** X10.  The night order is walked by its index without ever reading
    outside the list: after [n] calls of [advance_night_phase] only the
    index has changed, by [n]; the pending role is the entry of the order at
    the index, or none when the index has left the list, which is exactly
    when [is_night_phase_complete] holds; and each call returns the role
    that is pending after it. *)
Theorem night_order_walk (s : GameState) (n : nat) :
  let s' := Nat.iter n (λ st, (advance_night_phase st).2) s in
  s' = with_night_action_index (night_action_index s + n) s
  ∧ get_current_night_role s' = night_action_order s !! (night_action_index s + n)%nat
  ∧ (is_night_phase_complete s' = true ↔ get_current_night_role s' = None)
  ∧ (is_night_phase_complete s' = true
     ↔ (length (night_action_order s) ≤ night_action_index s + n)%nat)
  ∧ (advance_night_phase s').1 = Ok (get_current_night_role (advance_night_phase s').2).
Proof.
  cbv zeta. rewrite advances_run.
  assert (∀ st, get_current_night_role st = night_action_order st !! night_action_index st)
    as Hrole.
  { intros st. unfold get_current_night_role. case_decide; [|done].
    symmetry. by apply lookup_ge_None. }
  split_and!.
  - done.
  - by rewrite Hrole.
  - rewrite Hrole. unfold is_night_phase_complete. cbn.
    by rewrite bool_decide_eq_true, lookup_ge_None.
  - unfold is_night_phase_complete. cbn. by rewrite bool_decide_eq_true.
  - rewrite advance_night_phase_run. cbn. by rewrite Hrole.
Qed.

(** ** More on the deal *)

(** The dealing loop assigns roles only: every other field of every
    player is as it was. *)
Lemma deal_loop_keeps sh (items : list (nat * Z)) s :
  (∀ i uid, (i, uid) ∈ items → is_Some (sh !! i) ∧ in_roster s uid) →
  ∃ ps', for_each (deal_one sh) items tt s = (Ok tt, with_players ps' s)
         ∧ ∀ A (g : Player → A),
             (∀ role p, g (dealt role p) = g p) → g <$> ps' = g <$> players s.
Proof.
  revert s. induction items as [|[i uid] items IH]; intros s Hitems.
  - exists (players s). by rewrite with_players_id.
  - destruct (Hitems i uid) as [[role Hrole] [[k p] Hp]%in_roster_lookup]; [by left|].
    cbn [for_each]. rewrite (bind_ok _ _ _ _ _ (deal_one_run _ _ _ _ _ _ _ Hrole Hp)).
    destruct (IH (with_players (alter (dealt role) k (players s)) s)) as (ps' & Hrun & Hkeep).
    { intros j u Hju. destruct (Hitems j u) as [? Hu]; [by right|]. split; [done|].
      unfold in_roster in *. cbn. by rewrite alter_keeps_field. }
    exists ps'. rewrite Hrun. split; [done|].
    intros A g Hg. rewrite (Hkeep A g Hg). cbn. by apply alter_keeps_field.
Qed.

Lemma setup_game_shape rnd deck s :
  length deck = (player_count s + 2)%nat →
  ∃ ps', setup_game rnd deck s = (Ok tt, after_deal (shuffle rnd deck) ps' s)
         ∧ ∀ A (g : Player → A),
             (∀ role p, g (dealt role p) = g p) → g <$> ps' = g <$> players s.
Proof.
  intros Hlen.
  destruct (deal_loop_keeps (shuffle rnd deck)
              (imap (λ i uid, (i, uid)) (user_id <$> players s)) s) as (ps' & Hloop & Hkeep).
  { intros i uid (j & u & ? & Hu)%elem_of_lookup_imap. simplify_eq. split.
    - apply lookup_lt_is_Some_2. rewrite shuffle_length, Hlen.
      apply lookup_lt_Some in Hu. rewrite length_fmap in Hu. unfold player_count. lia.
    - by eapply list_elem_of_lookup_2. }
  exists ps'. split; [by apply setup_game_after_loop|exact Hkeep].
Qed.

(** X11.  [setup_game] does not look at the phase and clears nothing: on
    a deck of the right length it deals in whatever phase the state is,
    sets the phase to Night, and leaves the names, the votes, the
    [has_acted] flags and the recorded night actions of the players, the
    executed identities and the winners as they were. *)
Theorem setup_game_clears_nothing (rnd : nat → nat) (deck : list Role.t) (s : GameState) :
  length deck = (player_count s + 2)%nat →
  ∃ s',
    setup_game rnd deck s = (Ok tt, s')
    ∧ phase s' = GamePhase.NIGHT
    ∧ username <$> players s' = username <$> players s
    ∧ vote_target_id <$> players s' = vote_target_id <$> players s
    ∧ has_acted <$> players s' = has_acted <$> players s
    ∧ night_action <$> players s' = night_action <$> players s
    ∧ executed_player_ids s' = executed_player_ids s
    ∧ winners s' = winners s.
Proof.
  intros Hlen. destruct (setup_game_shape rnd deck s Hlen) as (ps' & Hrun & Hkeep).
  eexists. split; [exact Hrun|]. cbn. split_and!; try done; by apply Hkeep.
Qed.

Lemma setup_game_clears_nothing_witness :
  ∃ s',
    setup_game (λ _, 0%nat) [Role.SEER; Role.THIEF; Role.WEREWOLF; Role.TANNER; Role.VILLAGER; Role.VILLAGER]
      (voting_state [2; 1; 1; 1]) = (Ok tt, s')
    ∧ phase s' = GamePhase.NIGHT
    ∧ vote_target_id <$> players s' = [Some 2; Some 1; Some 1; Some 1]
    ∧ has_acted <$> players s' = [true; true; true; true].
Proof.
  destruct (setup_game_clears_nothing (λ _, 0%nat)
              [Role.SEER; Role.THIEF; Role.WEREWOLF; Role.TANNER; Role.VILLAGER; Role.VILLAGER]
              (voting_state [2; 1; 1; 1]) eq_refl)
    as (s' & Hrun & Hphase & _ & Hvotes & Hacted & _).
  exists s'. split_and!; [exact Hrun|exact Hphase|exact Hvotes|exact Hacted].
Defined.

(** X12.  With distinct identities the cards go out in order: the players
    receive, in roster order, the first cards of the shuffled deck, and
    the center receives the two that remain. *)
Theorem setup_game_hands_out (rnd : nat → nat) (deck : list Role.t) (s : GameState) :
  roster_ok s → length deck = (player_count s + 2)%nat →
  ∃ s',
    setup_game rnd deck s = (Ok tt, s')
    ∧ initial_role <$> players s' = take (player_count s) (shuffle rnd deck)
    ∧ center_cards s' = drop (player_count s) (shuffle rnd deck)
    ∧ ∀ i p, players s' !! i = Some p →
        shuffle rnd deck !! i = Some (current_role p)
        ∧ user_id <$> players s !! i = Some (user_id p).
Proof.
  intros Hnd Hlen. unfold roster_ok, player_count in *.
  pose proof (shuffle_length rnd deck) as Hsh.
  pose proof (deal_loop_exact (shuffle rnd deck) [] (players s) s eq_refl Hnd) as Hloop.
  cbn [length Nat.add app drop] in Hloop.
  exists (after_deal (shuffle rnd deck) (zip_with dealt (shuffle rnd deck) (players s)) s).
  split_and!.
  - apply setup_game_after_loop; [done|]. apply Hloop. lia.
  - cbn. apply dealt_initial_roles. lia.
  - done.
  - cbn. intros i p (role & q & -> & Hrole & Hq)%lookup_zip_with_Some.
    split; [done|]. by rewrite Hq.
Qed.

Lemma setup_game_hands_out_witness :
  ∃ s',
    setup_game (λ _, 0%nat) sample_deck (sample_state GamePhase.WAITING) = (Ok tt, s')
    ∧ initial_role <$> players s' = [Role.SEER; Role.THIEF; Role.VILLAGER]
    ∧ center_cards s' = [Role.TANNER; Role.WEREWOLF].
Proof.
  destruct (setup_game_hands_out (λ _, 0%nat) sample_deck (sample_state GamePhase.WAITING))
    as (s' & Hrun & Hroles & Hcenter & _).
  - apply (bool_decide_unpack _). vm_compute. exact I.
  - reflexivity.
  - exists s'. split_and!; [exact Hrun|exact Hroles|exact Hcenter].
Defined.

(** ** The werewolves *)

Lemma werewolf_loop_run W (l : list (nat * Player)) (result : gmap Z (list nat)) s :
  for_each (werewolf_one W) l result s
  = (Ok (foldl (λ r wolf, <[user_id wolf.2 := fst <$> other_wolves_of W (user_id wolf.2)]> r)
               result l),
     with_players
       (foldl (λ ps wolf, alter (wolf_mark W (user_id wolf.2)) wolf.1 ps) (players s) l) s).
Proof.
  revert result s. induction l as [|wolf l IH]; intros result s.
  - cbn. by rewrite with_players_id.
  - cbn [for_each foldl]. unfold werewolf_one at 1. run_engine. rewrite IH. cbn.
    by rewrite list_alter_alter_eq.
Qed.

(** The references to the players with a property, against the roster. *)
Lemma refs_filter_snd (P : Player → Prop) `{!∀ p, Decision (P p)} (ps : list Player) k :
  snd <$> filter (λ ip, P ip.2) (imap (λ i p, ((k + i)%nat, p)) ps) = filter P ps.
Proof.
  revert k. induction ps as [|p ps IH]; intros k; [done|].
  rewrite imap_cons, !filter_cons. cbn [snd].
  rewrite <- (IH (S k)).
  rewrite (imap_ext _ (λ i p, ((S k + i)%nat, p))) by (intros; cbn; f_equal; lia).
  by destruct (decide (P p)).
Qed.

Lemma refs_filter (P : Player → Prop) `{!∀ p, Decision (P p)} (ps : list Player) :
  snd <$> filter (λ ip, P ip.2) (imap (λ i p, (i, p)) ps) = filter P ps.
Proof. exact (refs_filter_snd P ps 0). Qed.

Lemma refs_elem_of (ps : list Player) (j : nat) (q : Player) :
  (j, q) ∈ imap (λ i p, (i, p)) ps ↔ ps !! j = Some q.
Proof.
  rewrite elem_of_lookup_imap. split.
  - by intros (i & p & [= -> ->] & ?).
  - intros ?. by exists j, q.
Qed.

Lemma refs_slots_NoDup (ps : list Player) : NoDup (fst <$> imap (λ i p, (i, p)) ps).
Proof.
  assert (fst <$> imap (λ i p, (i, p)) ps = seq 0 (length ps)) as ->; [|apply NoDup_seq].
  apply list_eq. intros i. rewrite list_lookup_fmap, list_lookup_imap.
  destruct (ps !! i) as [p|] eqn:Hp; cbn.
  - symmetry. apply lookup_seq. split; [done|]. by eapply lookup_lt_Some.
  - symmetry. apply lookup_seq_ge. by apply lookup_ge_None.
Qed.

(** The loop over the werewolves, seen on the roster. *)
Lemma werewolf_marks_roster (mark : Z → Player → Player) (pre qs : list Player) :
  foldl (λ ps wolf, alter (mark (user_id wolf.2)) wolf.1 ps) (pre ++ qs)
        (filter (λ ip, initial_role ip.2 = Role.WEREWOLF)
                (imap (λ i p, ((length pre + i)%nat, p)) qs))
  = pre ++ ((λ p, if decide (initial_role p = Role.WEREWOLF) then mark (user_id p) p else p)
              <$> qs).
Proof.
  revert pre. induction qs as [|q qs IH]; intros pre; [done|].
  rewrite imap_cons, filter_cons. cbn [snd fmap list_fmap].
  rewrite (imap_ext _ (λ i p, ((length (pre ++ [q]) + i)%nat, p)))
    by (intros; rewrite length_app; cbn; f_equal; lia).
  destruct (decide (initial_role q = Role.WEREWOLF)) as [Hq|Hq].
  - cbn [foldl fst snd]. rewrite Nat.add_0_r, alter_app_r_alt, Nat.sub_diag by done.
    cbn. rewrite (cons_middle _ pre qs), app_assoc.
    rewrite (imap_ext _ (λ i p, ((length (pre ++ [mark (user_id q) q]) + i)%nat, p)))
      by (intros; rewrite !length_app; done).
    rewrite IH. by rewrite <- app_assoc.
  - rewrite (cons_middle q pre qs), app_assoc, IH. by rewrite <- app_assoc.
Qed.

Lemma process_werewolf_night_run (s : GameState) :
  let W := get_players_by_initial_role Role.WEREWOLF s in
  process_werewolf_night s
  = (Ok (foldl (λ r wolf, <[user_id wolf.2 := fst <$> other_wolves_of W (user_id wolf.2)]> r)
               ∅ W),
     with_players
       ((λ p, if decide (initial_role p = Role.WEREWOLF)
              then wolf_mark W (user_id p) p else p) <$> players s) s).
Proof.
  cbv zeta. unfold process_werewolf_night. run_engine. rewrite werewolf_loop_run.
  f_equal. f_equal. unfold get_players_by_initial_role.
  apply (werewolf_marks_roster
           (wolf_mark (filter (λ ip, initial_role ip.2 = Role.WEREWOLF)
                              (imap (λ i p, (i, p)) (players s)))) []).
Qed.

Lemma other_wolves_names (s : GameState) (uid : Z) :
  username ∘ snd <$> other_wolves_of (get_players_by_initial_role Role.WEREWOLF s) uid
  = username <$> filter (λ q, initial_role q = Role.WEREWOLF ∧ user_id q ≠ uid) (players s).
Proof.
  unfold other_wolves_of, get_players_by_initial_role.
  rewrite list_fmap_compose. f_equal.
  rewrite (list_filter_filter (λ w : nat * Player, user_id w.2 ≠ uid)).
  rewrite <- (refs_filter_snd (λ q, initial_role q = Role.WEREWOLF ∧ user_id q ≠ uid)
                (players s) 0).
  f_equal. apply list_filter_iff. intros [i q]. cbn. tauto.
Qed.

(** X13.  [process_werewolf_night] goes by the initial role.  It returns
    without raising, leaves every player whose initial role is not
    Werewolf exactly as it was, and to every player whose initial role is
    Werewolf it does two things only: it sets [has_acted], and it records a
    werewolf check without a target whose text lists the names of the
    other players with that initial role, in roster order, or says that
    there is no other. *)
Theorem process_werewolf_night_marks (s : GameState) :
  ∃ others s',
    process_werewolf_night s = (Ok others, s')
    ∧ s' = with_players (players s') s
    ∧ length (players s') = length (players s)
    ∧ ∀ i p, players s !! i = Some p →
        (initial_role p ≠ Role.WEREWOLF → players s' !! i = Some p)
        ∧ (initial_role p = Role.WEREWOLF →
           ∃ action,
             players s' !! i = Some (set_has_acted true (set_night_action action p))
             ∧ action_type action = NightActionType.WEREWOLF_CHECK
             ∧ target_player_id action = None
             ∧ result action
               = let others :=
                   username <$> filter (λ q, initial_role q = Role.WEREWOLF
                                            ∧ user_id q ≠ user_id p) (players s) in
                 if others is [] then SoleWolf else OtherWolves others).
Proof.
  pose proof (process_werewolf_night_run s) as Hrun. cbv zeta in Hrun.
  eexists _, _. split; [exact Hrun|]. cbn [players with_players].
  split_and!; [done|by rewrite length_fmap|].
  intros i p Hp. rewrite list_lookup_fmap, Hp. cbn. split.
  - intros Hrole. by rewrite decide_False.
  - intros Hrole. rewrite decide_True by done. eexists. split; [reflexivity|].
    split_and!; [done..|]. cbn. unfold werewolf_text.
    rewrite <- other_wolves_names.
    by destruct (other_wolves_of _ _).
Qed.

Lemma werewolf_result_lookup (F : Z → list nat) (l : list (nat * Player))
    (r0 : gmap Z (list nat)) (uid : Z) :
  foldl (λ r wolf, <[user_id wolf.2 := F (user_id wolf.2)]> r) r0 l !! uid
  = if decide (uid ∈ user_id ∘ snd <$> l) then Some (F uid) else r0 !! uid.
Proof.
  revert r0. induction l as [|wolf l IH]; intros r0.
  - cbn. by rewrite decide_False by apply not_elem_of_nil.
  - cbn [foldl]. rewrite IH, fmap_cons. cbn [compose].
    destruct (decide (uid ∈ user_id ∘ snd <$> l)) as [Hin|Hout].
    + by rewrite decide_True by (by right).
    + rewrite lookup_insert. destruct (decide (user_id wolf.2 = uid)) as [<-|Hne].
      * by rewrite decide_True by (by left).
      * rewrite decide_False; [done|]. rewrite elem_of_cons. by intros [?|?].
Qed.

Lemma wolves_elem_of (s : GameState) (uid : Z) :
  uid ∈ user_id ∘ snd <$> get_players_by_initial_role Role.WEREWOLF s
  ↔ ∃ p, p ∈ players s ∧ user_id p = uid ∧ initial_role p = Role.WEREWOLF.
Proof.
  unfold get_players_by_initial_role. rewrite list_elem_of_fmap. split.
  - intros ([i p] & -> & [Hrole Hin%refs_elem_of]%list_elem_of_filter).
    exists p. split_and!; [|done..]. by eapply list_elem_of_lookup_2.
  - intros (p & [i Hi]%list_elem_of_lookup & <- & Hrole).
    exists (i, p). split; [done|]. apply list_elem_of_filter. split; [done|].
    by apply refs_elem_of.
Qed.

Lemma filter_out_one {A} (f : A → Z) (l : list A) (x : Z) :
  NoDup (f <$> l) → x ∈ f <$> l → S (length (filter (λ y, f y ≠ x) l)) = length l.
Proof.
  induction l as [|y l IH]; intros Hnd Hin; [by apply elem_of_nil in Hin|].
  rewrite fmap_cons in Hnd, Hin. apply NoDup_cons in Hnd as [Hy Hnd].
  rewrite filter_cons. destruct (decide (f y ≠ x)) as [Hne|Heq].
  - cbn [length]. f_equal. apply IH; [done|].
    apply elem_of_cons in Hin as [?|?]; [congruence|done].
  - assert (f y = x) as Hyx by (destruct (decide (f y = x)); [done|by destruct Heq]).
    cbn [length]. f_equal. subst x.
    assert (filter (λ z, f z ≠ f y) l = l) as ->; [|done].
    clear IH Hin Heq Hnd. induction l as [|z l IHl]; [done|].
    rewrite fmap_cons in Hy. apply not_elem_of_cons in Hy as [Hz Hy].
    rewrite filter_cons, decide_True by congruence. f_equal. by apply IHl.
Qed.

(** X14.  The dictionary that [process_werewolf_night] returns has as its
    keys exactly the identities of the players whose initial role is
    Werewolf.  Under a key stand the other players with that initial role,
    each once and none with the identity of the key; with distinct
    identities the list is one shorter than the number of werewolves, so
    that a lone werewolf gets the empty list. *)
Theorem process_werewolf_night_result (s : GameState) :
  ∃ others s',
    process_werewolf_night s = (Ok others, s')
    ∧ (∀ uid, is_Some (others !! uid)
              ↔ ∃ p, p ∈ players s ∧ user_id p = uid ∧ initial_role p = Role.WEREWOLF)
    ∧ (∀ uid slots, others !! uid = Some slots →
         NoDup slots
         ∧ ∀ j, j ∈ slots
                ↔ ∃ q, players s !! j = Some q ∧ initial_role q = Role.WEREWOLF
                       ∧ user_id q ≠ uid)
    ∧ (roster_ok s → ∀ uid slots, others !! uid = Some slots →
         S (length slots)
         = length (filter (λ q, initial_role q = Role.WEREWOLF) (players s))).
Proof.
  pose proof (process_werewolf_night_run s) as Hrun. cbv zeta in Hrun.
  eexists _, _. split; [exact Hrun|].
  set (W := get_players_by_initial_role Role.WEREWOLF s).
  assert (∀ uid slots,
            foldl (λ r wolf, <[user_id wolf.2 := fst <$> other_wolves_of W (user_id wolf.2)]> r)
                  (∅ : gmap Z (list nat)) W !! uid = Some slots →
            uid ∈ user_id ∘ snd <$> W ∧ slots = fst <$> other_wolves_of W uid) as Hsome.
  { intros uid slots.
    rewrite (werewolf_result_lookup (λ u, fst <$> other_wolves_of W u)).
    case_decide; [|by rewrite lookup_empty]. by intros [= <-]. }
  split_and!.
  - intros uid. rewrite <- wolves_elem_of. fold W.
    rewrite (werewolf_result_lookup (λ u, fst <$> other_wolves_of W u)).
    case_decide; [|rewrite lookup_empty]; split; try done.
  - intros uid slots [_ ->]%Hsome. split.
    + apply (sublist_NoDup _ (fst <$> imap (λ i p, (i, p)) (players s)));
        [apply refs_slots_NoDup|].
      apply fmap_sublist. etrans; apply sublist_filter.
    + intros j. unfold other_wolves_of, W, get_players_by_initial_role.
      rewrite list_elem_of_fmap. split.
      * intros ([i q] & -> & [Hne [Hrole Hin%refs_elem_of]%list_elem_of_filter]
                  %list_elem_of_filter). by exists q.
      * intros (q & Hq & Hrole & Hne). exists (j, q). split; [done|].
        apply list_elem_of_filter. split; [done|].
        apply list_elem_of_filter. split; [done|]. by apply refs_elem_of.
  - intros Hok uid slots [Hin ->]%Hsome. rewrite length_fmap.
    assert (snd <$> W = filter (λ q, initial_role q = Role.WEREWOLF) (players s)) as HW
      by exact (@refs_filter (λ q, initial_role q = Role.WEREWOLF) _ (players s)).
    assert (NoDup (user_id ∘ snd <$> W)) as Hnd.
    { rewrite list_fmap_compose, HW.
      apply (sublist_NoDup _ (user_id <$> players s)); [exact Hok|].
      apply fmap_sublist, sublist_filter. }
    pose proof (filter_out_one (user_id ∘ snd) W uid Hnd Hin) as Hone.
    change (S (length (other_wolves_of W uid)) = length W) in Hone.
    by rewrite Hone, <- HW, length_fmap.
Qed.

Lemma process_werewolf_night_result_witness :
  ∃ others s',
    process_werewolf_night (sample_state GamePhase.NIGHT) = (Ok others, s')
    ∧ others !! 3 = Some []
    ∧ others !! 1 = None.
Proof.
  destruct (process_werewolf_night_result (sample_state GamePhase.NIGHT))
    as (others & s' & Hrun & Hkeys & _ & Hcount).
  exists others, s'. split; [exact Hrun|].
  assert (is_Some (others !! 3)) as [slots Hslots].
  { apply Hkeys. exists (new_player 3 "cid" Role.WEREWOLF).
    split_and!; [|done..]. do 2 apply list_elem_of_further. apply list_elem_of_here. }
  split.
  - rewrite Hslots. f_equal. apply length_zero_iff_nil.
    assert (roster_ok (sample_state GamePhase.NIGHT)) as Hok
      by (apply (bool_decide_unpack _); vm_compute; exact I).
    specialize (Hcount Hok 3 slots Hslots).
    change (S (length slots) = 1%nat) in Hcount. lia.
  - apply eq_None_not_Some. intros (p & Hp & Hid & Hrole)%Hkeys.
    vm_compute in Hp.
    repeat (apply elem_of_cons in Hp as [->|Hp]; [by vm_compute in Hid, Hrole|]).
    by apply elem_of_nil in Hp.
Defined.

(** ** The seer's entry point *)

Lemma seer_player_cases (s : GameState) (seer_id target_id : Z) :
  process_seer_action_player seer_id target_id s = (Ok None, s)
  ∨ ∃ si seer ti target,
      lookup_player s seer_id = Some (si, seer)
      ∧ lookup_player s target_id = Some (ti, target)
      ∧ process_seer_action_player seer_id target_id s
        = (Ok (Some (current_role target)),
           record_action si
             (mkNightAction NightActionType.SEER_PLAYER (Some target_id)
                (SeerSawPlayer (username target) (current_role target))) s).
Proof.
  destruct (lookup_player s seer_id) as [[si seer]|] eqn:Hs.
  2: { left. apply seer_player_not_eligible. unfold field_of. by rewrite Hs. }
  destruct (decide (initial_role seer = Role.SEER)) as [Hrole|Hrole].
  2: { left. apply seer_player_not_eligible. unfold field_of. rewrite Hs. cbn. congruence. }
  destruct (decide (seer_id = target_id)) as [<-|Hne]; [left; apply seer_self_target|].
  destruct (lookup_player s target_id) as [[ti target]|] eqn:Ht.
  2: { left. by apply seer_unknown_target, not_in_roster_lookup. }
  right. exists si, seer, ti, target. split_and!; [done..|].
  by apply (seer_player_run s seer_id target_id si seer ti target).
Qed.

Lemma seer_center_cases (s : GameState) (seer_id : Z) :
  process_seer_action_center seer_id s = (Ok None, s)
  ∨ ((length (center_cards s) < 2)%nat
     ∧ process_seer_action_center seer_id s = (Raise IndexError, s))
  ∨ ∃ si r0 r1 rest,
      center_cards s = r0 :: r1 :: rest
      ∧ fst <$> lookup_player s seer_id = Some si
      ∧ process_seer_action_center seer_id s
        = (Ok (Some (center_cards s)),
           record_action si
             (mkNightAction NightActionType.SEER_CENTER None (SeerSawCenter r0 r1)) s).
Proof.
  destruct (decide (field_of initial_role s seer_id = Some Role.SEER)) as [Hseer|Hseer];
    [|left; by apply seer_center_not_eligible].
  destruct (decide (length (center_cards s) < 2)%nat) as [Hlen|Hlen];
    [right; left; split; [done|]; by apply seer_center_raises|].
  right. right. unfold field_of in Hseer.
  destruct (lookup_player s seer_id) as [[si seer]|] eqn:Hs; [|done]. cbn in Hseer.
  destruct (center_cards s) as [|r0 [|r1 rest]] eqn:Hc; cbn in Hlen; [lia..|].
  exists si, r0, r1, rest. split_and!; [done..|].
  rewrite <- Hc. apply (seer_center_run s seer_id si seer r0 r1 rest); [done|congruence|done].
Qed.

Lemma lookup_record_action (s : GameState) i action uid :
  lookup_player (record_action i action s) uid
  = (λ jp : nat * Player,
       (jp.1, if decide (jp.1 = i)
              then set_has_acted true (set_night_action action jp.2) else jp.2))
      <$> lookup_player s uid.
Proof.
  unfold record_action, lookup_player. cbn. rewrite !find_alter by done.
  destruct (find uid (players s)) as [[j p]|]; cbn; [|done]. by case_decide.
Qed.


(** ** More on the thief *)

Lemma thief_skip_run (s : GameState) (thief_id : Z) (ti : nat) (thief : Player) :
  lookup_player s thief_id = Some (ti, thief) → initial_role thief = Role.THIEF →
  process_thief_action thief_id None s
  = (Ok None,
     record_action ti (mkNightAction NightActionType.THIEF_SKIP None ThiefDidNothing) s).
Proof.
  intros Ht Hrole. unfold process_thief_action. run_engine. rewrite Ht.
  by rewrite decide_False by (by rewrite Hrole; intros []).
Qed.

(** The state that a swap leaves. *)
Lemma thief_swap_roles (s s' : GameState) ti thief gi target action :
  players s !! ti = Some thief → players s !! gi = Some target →
  s' = with_players
         (alter (set_has_acted true) ti
            (alter (set_night_action action) ti
               (alter (set_current_role (current_role thief)) gi
                  (alter (set_current_role (current_role target)) ti (players s))))) s →
  current_role <$> players s' = swap ti gi (current_role <$> players s).
Proof.
  intros Ht Hg ->. cbn [players with_players]. unfold swap.
  rewrite !list_lookup_fmap, Ht, Hg. cbn.
  rewrite !alter_keeps_field by done.
  rewrite (list_fmap_alter current_role _ (λ _, current_role thief))
    by (by apply Forall_forall).
  rewrite (list_fmap_alter current_role _ (λ _, current_role target))
    by (by apply Forall_forall).
  by rewrite <- !list_insert_alter.
Qed.

Lemma thief_cases (s : GameState) (thief_id : Z) (target_id : option Z) :
  process_thief_action thief_id target_id s = (Ok None, s)
  ∨ (target_id = None
     ∧ ∃ ti thief,
         lookup_player s thief_id = Some (ti, thief) ∧ initial_role thief = Role.THIEF
         ∧ process_thief_action thief_id None s
           = (Ok None,
              record_action ti
                (mkNightAction NightActionType.THIEF_SKIP None ThiefDidNothing) s))
  ∨ (∃ target ti thief gi targetp,
       target_id = Some target ∧ thief_id ≠ target
       ∧ lookup_player s thief_id = Some (ti, thief) ∧ initial_role thief = Role.THIEF
       ∧ lookup_player s target = Some (gi, targetp)
       ∧ process_thief_action thief_id (Some target) s
         = (Ok (Some (current_role targetp)),
            with_players
              (alter (set_has_acted true) ti
                 (alter (set_night_action
                           (mkNightAction NightActionType.THIEF_SWAP (Some target)
                              (ThiefSwapped (username targetp) (current_role targetp)))) ti
                    (alter (set_current_role (current_role thief)) gi
                       (alter (set_current_role (current_role targetp)) ti (players s))))) s)).
Proof.
  destruct (lookup_player s thief_id) as [[ti thief]|] eqn:Ht.
  2: { left. apply thief_not_eligible. unfold field_of. by rewrite Ht. }
  destruct (decide (initial_role thief = Role.THIEF)) as [Hrole|Hrole].
  2: { left. apply thief_not_eligible. unfold field_of. rewrite Ht. cbn. congruence. }
  destruct target_id as [target|].
  - destruct (decide (thief_id = target)) as [<-|Hne]; [left; apply thief_self_target|].
    destruct (lookup_player s target) as [[gi targetp]|] eqn:Hg.
    2: { left. by apply thief_unknown_target, not_in_roster_lookup. }
    right. right. exists target, ti, thief, gi, targetp. split_and!; [done..|].
    by apply (thief_swap_run s thief_id target ti thief gi targetp).
  - right. left. split; [done|]. exists ti, thief. split_and!; [done..|].
    by apply (thief_skip_run s thief_id ti thief).
Qed.

Lemma record_action_twice (s : GameState) i action :
  record_action i action (record_action i action s) = record_action i action s.
Proof.
  unfold record_action. cbn [players with_players]. rewrite with_players_with_players.
  f_equal. rewrite !list_alter_alter_eq. apply list_alter_ext; [|done].
  by intros [].
Qed.

(** X16.  [process_thief_action] never raises, and what it returns can be
    relied on.  A role returned is the current role that the named target
    held, and the swap is then recorded.  No role returned for a named
    target means that nothing at all has changed.  For a skip no role is
    returned either way: a player who is not a thief is left untouched,
    while for a thief the skip is recorded and the flag set, no role
    changes, and a second skip changes nothing more. *)
Theorem process_thief_action_reports (s : GameState) (thief_id : Z) (target_id : option Z) :
  let '(r, s') := process_thief_action thief_id target_id s in
  ∃ answer,
    r = Ok answer
    ∧ match answer, target_id with
      | Some role, Some target =>
          target ≠ thief_id
          ∧ field_of current_role s target = Some role
          ∧ field_of current_role s' thief_id = Some role
          ∧ field_of has_acted s' thief_id = Some true
      | Some _, None => False
      | None, Some _ => s' = s
      | None, None =>
          (field_of initial_role s thief_id ≠ Some Role.THIEF → s' = s)
          ∧ (field_of initial_role s thief_id = Some Role.THIEF →
             field_of has_acted s' thief_id = Some true
             ∧ field_of night_action s' thief_id
               = Some (Some (mkNightAction NightActionType.THIEF_SKIP None ThiefDidNothing))
             ∧ current_role <$> players s' = current_role <$> players s
             ∧ process_thief_action thief_id None s' = (Ok None, s'))
      end.
Proof.
  destruct (thief_cases s thief_id target_id)
    as [Hrun|[(-> & ti & thief & Ht & Hrole & Hrun)
       |(target & ti & thief & gi & targetp & -> & Hne & Ht & Hrole & Hg & Hrun)]];
    rewrite Hrun.
  - exists None. split; [done|]. destruct target_id as [target|]; [done|].
    split; [done|]. intros Hthief.
    unfold field_of in Hthief.
    destruct (lookup_player s thief_id) as [[ti thief]|] eqn:Ht; [|done].
    cbn in Hthief. rewrite (thief_skip_run s thief_id ti thief) in Hrun by congruence.
    injection Hrun as Hs.
    assert (field_of has_acted s thief_id = Some true
            ∧ field_of night_action s thief_id
              = Some (Some (mkNightAction NightActionType.THIEF_SKIP None ThiefDidNothing)))
      as [Hacted Haction].
    { rewrite <- Hs at 1 2. unfold field_of. rewrite !lookup_record_action, Ht. cbn.
      by rewrite decide_True. }
    split_and!; [done..|].
    rewrite (thief_skip_run s thief_id ti thief) by congruence. by rewrite Hs.
  - exists None. split; [done|]. split.
    { intros Hno. destruct Hno. unfold field_of. rewrite Ht. cbn. congruence. }
    intros _.
    assert (lookup_player
              (record_action ti
                 (mkNightAction NightActionType.THIEF_SKIP None ThiefDidNothing) s) thief_id
            = Some (ti, set_has_acted true
                          (set_night_action
                             (mkNightAction NightActionType.THIEF_SKIP None ThiefDidNothing)
                             thief))) as Ht'.
    { rewrite lookup_record_action, Ht. cbn. by rewrite decide_True. }
    split_and!.
    + unfold field_of. by rewrite Ht'.
    + unfold field_of. by rewrite Ht'.
    + cbn. by rewrite !alter_keeps_field.
    + rewrite (thief_skip_run _ thief_id ti _ Ht') by done.
      by rewrite record_action_twice.
  - exists (Some (current_role targetp)). split; [done|].
    assert (ti ≠ gi) by (intros ->; apply Hne; by eapply lookup_player_inj).
    unfold field_of, lookup_player in *. cbn [players with_players].
    rewrite !find_alter, Ht, Hg by done. cbn.
    split_and!; [done..| |]; by decide_indices.
Qed.

Lemma swap_swap {A} (i j : nat) (x : list A) : swap i j (swap i j x) = x.
Proof.
  destruct (decide (i < length x ∧ j < length x)%nat) as [[Hi Hj]|Hout].
  - apply list_eq. intros k.
    rewrite !swap_lookup by (by rewrite ?swap_length). repeat case_decide; congruence.
  - assert (swap i j x = x) as Hid; [|by rewrite !Hid].
    unfold swap. destruct (x !! j) eqn:Hxj; [|done]. destruct (x !! i) eqn:Hxi; [|done].
    apply lookup_lt_Some in Hxi, Hxj. lia.
Qed.

(** X17.  A swap is undone by the same swap: when a thief has exchanged
    cards with a player and the same call is made once more, every player
    holds the card held before the first call, and the second call returns
    the card that the thief started with. *)
Theorem thief_swap_twice_restores (s : GameState) (thief_id target_id : Z) :
  field_of initial_role s thief_id = Some Role.THIEF →
  in_roster s target_id → thief_id ≠ target_id →
  let s1 := (process_thief_action thief_id (Some target_id) s).2 in
  let s2 := (process_thief_action thief_id (Some target_id) s1).2 in
  current_role <$> players s2 = current_role <$> players s
  ∧ initial_role <$> players s2 = initial_role <$> players s
  ∧ (process_thief_action thief_id (Some target_id) s1).1
    = Ok (field_of current_role s thief_id).
Proof.
  intros Hthief [[gi target] Hg]%in_roster_lookup Hne. unfold field_of in *.
  destruct (lookup_player s thief_id) as [[ti thief]|] eqn:Ht; [|done]. cbn in Hthief.
  assert (initial_role thief = Role.THIEF) as Hrole by congruence.
  assert (ti ≠ gi) as Hslots by (intros ->; apply Hne; by eapply lookup_player_inj).
  pose proof (thief_swap_run s thief_id target_id ti thief gi target Ht Hrole Hg Hne) as Hrun1.
  cbv zeta. rewrite Hrun1. cbn [snd].
  set (s1 := with_players _ s) in *.
  assert (∃ thief1, lookup_player s1 thief_id = Some (ti, thief1)
                    ∧ initial_role thief1 = Role.THIEF
                    ∧ current_role thief1 = current_role target) as (thief1 & Ht1 & Hr1 & Hc1).
  { eexists. unfold s1, lookup_player in *. cbn [players with_players].
    rewrite !find_alter, Ht by done. cbn. decide_indices. done. }
  assert (∃ target1, lookup_player s1 target_id = Some (gi, target1)
                     ∧ current_role target1 = current_role thief) as (target1 & Hg1 & Hc2).
  { eexists. unfold s1, lookup_player in *. cbn [players with_players].
    rewrite !find_alter, Hg by done. cbn. decide_indices. done. }
  pose proof (thief_swap_run s1 thief_id target_id ti thief1 gi target1 Ht1 Hr1 Hg1 Hne)
    as Hrun2.
  rewrite Hrun2. cbn [fst snd]. split_and!.
  - apply lookup_player_user_id in Ht as [Ht _], Hg as [Hg _], Ht1 as [Ht1 _], Hg1 as [Hg1 _].
    rewrite (thief_swap_roles s1 _ ti thief1 gi target1 _ Ht1 Hg1 eq_refl).
    rewrite (thief_swap_roles s s1 ti thief gi target _ Ht Hg eq_refl).
    apply swap_swap.
  - cbn. by rewrite !alter_keeps_field.
  - by rewrite Hc2.
Qed.

Lemma thief_swap_twice_restores_witness :
  current_role
    <$> players (process_thief_action 1 (Some 3)
                   (process_thief_action 1 (Some 3) (sample_state GamePhase.NIGHT)).2).2
  = [Role.THIEF; Role.SEER; Role.WEREWOLF].
Proof.
  apply (thief_swap_twice_restores (sample_state GamePhase.NIGHT) 1 3).
  - reflexivity.
  - apply (bool_decide_unpack _). vm_compute. exact I.
  - discriminate.
Defined.

(** ** What a night keeps *)

Lemma roster_keeps_refl (ps : list Player) : roster_keeps ps ps.
Proof. unfold roster_keeps. split_and!; [done..|]. induction ps; by constructor. Qed.

Lemma roster_keeps_trans (ps1 ps2 ps3 : list Player) :
  roster_keeps ps1 ps2 → roster_keeps ps2 ps3 → roster_keeps ps1 ps3.
Proof.
  intros (? & ? & ? & ? & H12) (? & ? & ? & ? & H23).
  unfold roster_keeps. split_and!; [congruence..|].
  eapply Forall2_trans; [|exact H12|exact H23]. naive_solver.
Qed.

Lemma roster_keeps_alter (ps ps' : list Player) (i : nat) (f : Player → Player) :
  (∀ p, user_id (f p) = user_id p) → (∀ p, username (f p) = username p) →
  (∀ p, initial_role (f p) = initial_role p) →
  (∀ p, vote_target_id (f p) = vote_target_id p) →
  (∀ p, has_acted p = true → has_acted (f p) = true) →
  roster_keeps ps ps' → roster_keeps ps (alter f i ps').
Proof.
  intros ????? (? & ? & ? & ? & Hacted). unfold roster_keeps.
  rewrite !alter_keeps_field by done. split_and!; [done..|].
  apply Forall2_alter_r; [done|]. naive_solver.
Qed.

Lemma roster_keeps_fmap (ps : list Player) (f : Player → Player) :
  (∀ p, user_id (f p) = user_id p) → (∀ p, username (f p) = username p) →
  (∀ p, initial_role (f p) = initial_role p) →
  (∀ p, vote_target_id (f p) = vote_target_id p) →
  (∀ p, has_acted p = true → has_acted (f p) = true) →
  roster_keeps ps (f <$> ps).
Proof.
  intros Hid Hname Hinit Hvote Hacted. unfold roster_keeps.
  rewrite <- !list_fmap_compose. split_and!.
  - apply list_fmap_ext. intros; apply Hid.
  - apply list_fmap_ext. intros; apply Hname.
  - apply list_fmap_ext. intros; apply Hinit.
  - apply list_fmap_ext. intros; apply Hvote.
  - apply Forall2_fmap_r. induction ps as [|p ps IH]; [constructor|].
    constructor; [exact (Hacted p)|done].
Qed.

Lemma night_frame_refl (s : GameState) : night_frame s s.
Proof. unfold night_frame. split_and!; [apply roster_keeps_refl|done..]. Qed.

Lemma night_frame_trans (s1 s2 s3 : GameState) :
  night_frame s1 s2 → night_frame s2 s3 → night_frame s1 s3.
Proof.
  intros (Hr12 & Hc12 & ? & ? & ? & ? & ? & ?) (Hr23 & Hc23 & ? & ? & ? & ? & ? & ?).
  unfold night_frame. split_and!; [|by etrans|try congruence..|lia|congruence|congruence].
  by eapply roster_keeps_trans.
Qed.

Lemma night_frame_record (s : GameState) (i : nat) (action : NightAction) :
  night_frame s (record_action i action s).
Proof.
  unfold night_frame, record_action. cbn. split_and!; [|by rewrite !alter_keeps_field|done..].
  do 2 (apply roster_keeps_alter; [done..|]). apply roster_keeps_refl.
Qed.

Lemma seer_action_state (s : GameState) seer_id target_player_id view_center :
  (process_seer_action seer_id target_player_id view_center s).2 = s
  ∨ ∃ i action,
      (process_seer_action seer_id target_player_id view_center s).2
      = record_action i action s.
Proof.
  unfold process_seer_action. destruct view_center.
  - destruct (seer_center_cases s seer_id)
      as [Hrun|[[Hlen Hrun]|(si & r0 & r1 & rest & Hc & Hsi & Hrun)]].
    + left. by rewrite (bind_ok _ _ _ _ _ Hrun).
    + left. unfold bind. by rewrite Hrun.
    + right. rewrite (bind_ok _ _ _ _ _ Hrun), Hc. by eexists _, _.
  - destruct target_player_id as [target_id|]; [|by left].
    destruct (seer_player_cases s seer_id target_id)
      as [Hrun|(si & seer & ti & target & Hs & Ht & Hrun)].
    + left. by rewrite (bind_ok _ _ _ _ _ Hrun).
    + right. rewrite (bind_ok _ _ _ _ _ Hrun). run_engine.
      case_match; [case_match|]; by eexists _, _.
Qed.

Lemma night_frame_call (call : NightCall) (s : GameState) :
  night_frame s (run_night_call call s).
Proof.
  destruct call as [|seer_id target_player_id view_center|thief_id target_id|];
    cbn [run_night_call].
  - rewrite process_werewolf_night_run. cbn. unfold night_frame. cbn.
    split_and!; [|..|done|done|done|done|done|done].
    + apply roster_keeps_fmap; intros p; by case_decide.
    + rewrite <- list_fmap_compose.
      assert (current_role
                ∘ (λ p, if decide (initial_role p = Role.WEREWOLF)
                        then wolf_mark (get_players_by_initial_role Role.WEREWOLF s)
                               (user_id p) p
                        else p)
              <$> players s = current_role <$> players s) as ->; [|done].
      apply list_fmap_ext. intros ? p _. cbn. by case_decide.
  - destruct (seer_action_state s seer_id target_player_id view_center)
      as [->|(i & action & ->)]; [apply night_frame_refl|apply night_frame_record].
  - destruct (thief_cases s thief_id target_id)
      as [->|[(-> & ti & thief & _ & _ & ->)
         |(target & ti & thief & gi & targetp & -> & Hne & Ht & Hrole & Hg & Hrun)]];
      [apply night_frame_refl|apply night_frame_record|].
    rewrite Hrun. unfold night_frame. cbn [snd].
    apply lookup_player_user_id in Ht as [Ht _], Hg as [Hg _].
    rewrite (thief_swap_roles s _ ti thief gi targetp _ Ht Hg eq_refl).
    cbn. split_and!; [|apply swap_Permutation|done..].
    do 4 (apply roster_keeps_alter; [done..|]). apply roster_keeps_refl.
  - rewrite advance_night_phase_run. cbn. unfold night_frame. cbn.
    split_and!; [apply roster_keeps_refl|done..|lia|done|done].
Qed.

Lemma night_frame_run (calls : list NightCall) (s : GameState) :
  night_frame s (run_night calls s).
Proof.
  revert s. induction calls as [|call calls IH]; intros s; [apply night_frame_refl|].
  eapply night_frame_trans; [apply night_frame_call|]. apply IH.
Qed.

(** X18.  Whatever calls the night brings, in whatever number and order —
    the werewolf step, seer and thief actions of any player with any
    target, advances of the order — the cards are only moved between
    players: the current roles of the roster are the same cards as before,
    the center is untouched, and identities, names, initial roles and votes
    stay in place.  No [has_acted] flag is ever taken back, the index of
    the order never goes back, and phase, order, executed identities and
    winners are not written. *)
Theorem night_keeps_cards (calls : list NightCall) (s : GameState) :
  let s' := run_night calls s in
  user_id <$> players s' = user_id <$> players s
  ∧ username <$> players s' = username <$> players s
  ∧ initial_role <$> players s' = initial_role <$> players s
  ∧ vote_target_id <$> players s' = vote_target_id <$> players s
  ∧ current_role <$> players s' ≡ₚ current_role <$> players s
  ∧ center_cards s' = center_cards s
  ∧ (∀ i p p', players s !! i = Some p → players s' !! i = Some p' →
               has_acted p = true → has_acted p' = true)
  ∧ (night_action_index s ≤ night_action_index s')%nat
  ∧ phase s' = phase s
  ∧ night_action_order s' = night_action_order s
  ∧ executed_player_ids s' = executed_player_ids s
  ∧ winners s' = winners s.
Proof.
  destruct (night_frame_run calls s)
    as ((? & ? & ? & ? & Hacted) & ? & ? & ? & ? & ? & ? & ?).
  cbv zeta. split_and!; try done.
  intros i p p' Hp Hp'. by eapply (Forall2_lookup_lr _ _ _ _ _ _ Hacted).
Qed.

Lemma setup_game_exact rnd deck s :
  roster_ok s → length deck = (player_count s + 2)%nat →
  setup_game rnd deck s
  = (Ok tt, after_deal (shuffle rnd deck) (zip_with dealt (shuffle rnd deck) (players s)) s).
Proof.
  intros Hnd Hlen. unfold roster_ok, player_count in *.
  pose proof (shuffle_length rnd deck) as Hsh.
  pose proof (deal_loop_exact (shuffle rnd deck) [] (players s) s eq_refl Hnd) as Hloop.
  cbn [length Nat.add app drop] in Hloop.
  apply setup_game_after_loop; [done|]. apply Hloop. lia.
Qed.

(** X19.  From the deal to the end of the night no card is lost or made:
    after [setup_game] on a roster of distinct identities and any calls of
    the night, the current roles of the players together with the center
    cards are the cards of the deck, counted with multiplicity, and the
    initial roles are still the ones dealt. *)
Theorem deal_then_night_keeps_deck (rnd : nat → nat) (deck : list Role.t)
    (calls : list NightCall) (s : GameState) :
  roster_ok s → length deck = (player_count s + 2)%nat →
  ∃ s0,
    setup_game rnd deck s = (Ok tt, s0)
    ∧ (current_role <$> players (run_night calls s0)) ++ center_cards (run_night calls s0)
      ≡ₚ deck
    ∧ initial_role <$> players (run_night calls s0) = initial_role <$> players s0.
Proof.
  intros Hnd Hlen. eexists. split; [by apply setup_game_exact|].
  set (s0 := after_deal _ _ s).
  destruct (night_frame_run calls s0) as ((_ & _ & Hinit & _) & Hcur & Hcenter & _).
  split; [|done]. rewrite Hcur, Hcenter. unfold s0. cbn.
  assert (current_role <$> zip_with dealt (shuffle rnd deck) (players s)
          = initial_role <$> zip_with dealt (shuffle rnd deck) (players s)) as ->.
  { apply list_eq. intros i. rewrite !list_lookup_fmap.
    destruct (zip_with dealt _ _ !! i) as [p|] eqn:Hp; [|done]. cbn. f_equal.
    symmetry. by eapply (Forall_lookup_1 _ _ _ _ (dealt_roles_agree _ _) Hp). }
  unfold roster_ok, player_count in *. pose proof (shuffle_length rnd deck).
  rewrite dealt_initial_roles by lia.
  by rewrite take_drop, shuffle_Permutation.
Qed.

Lemma deal_then_night_keeps_deck_witness :
  ∃ s0,
    setup_game (λ _, 0%nat) sample_deck (sample_state GamePhase.WAITING) = (Ok tt, s0)
    ∧ (current_role <$> players (run_night sample_night s0))
       ++ center_cards (run_night sample_night s0)
      ≡ₚ sample_deck.
Proof.
  destruct (deal_then_night_keeps_deck (λ _, 0%nat) sample_deck sample_night
              (sample_state GamePhase.WAITING)) as (s0 & Hrun & Hdeck & _).
  - apply (bool_decide_unpack _). vm_compute. exact I.
  - reflexivity.
  - exists s0. by split.
Defined.

(** ** The final roles after a night without a swap *)

Lemma quiet_call_keeps_roles (call : NightCall) (s : GameState) :
  moves_cards call = false →
  current_role <$> players (run_night_call call s) = current_role <$> players s.
Proof.
  intros Hquiet.
  destruct call as [|seer_id target_player_id view_center|thief_id target_id|];
    cbn [run_night_call].
  - rewrite process_werewolf_night_run. cbn. rewrite <- list_fmap_compose.
    apply list_fmap_ext. intros ? p _. cbn. by case_decide.
  - destruct (seer_action_state s seer_id target_player_id view_center)
      as [->|(i & action & ->)]; [done|].
    unfold record_action. cbn. by rewrite !alter_keeps_field.
  - destruct target_id as [target|]; [done|].
    destruct (thief_cases s thief_id None)
      as [->|[(_ & ti & thief & _ & _ & ->)|(target & ? & ? & ? & ? & ? & _)]];
      [done| |done].
    unfold record_action. cbn. by rewrite !alter_keeps_field.
  - by rewrite advance_night_phase_run.
Qed.

Lemma quiet_night_keeps_roles (calls : list NightCall) (s : GameState) :
  Forall (λ call, moves_cards call = false) calls →
  current_role <$> players (run_night calls s) = current_role <$> players s.
Proof.
  intros Hquiet. revert s. induction Hquiet as [|call calls Hcall _ IH]; intros s; [done|].
  cbn. unfold run_night in IH. rewrite IH. by apply quiet_call_keeps_roles.
Qed.

Lemma player_line_ext (ps ps' : list Player) :
  username <$> ps' = username <$> ps →
  initial_role <$> ps' = initial_role <$> ps →
  current_role <$> ps' = current_role <$> ps →
  player_line <$> ps' = player_line <$> ps.
Proof.
  intros Hname Hinit Hcur. apply list_eq. intros i.
  apply (f_equal (λ l, l !! i)) in Hname, Hinit, Hcur.
  rewrite !list_lookup_fmap in *.
  destruct (ps !! i) as [p|], (ps' !! i) as [p'|]; simplify_eq/=; [|done].
  unfold player_line. by rewrite Hname, Hinit, Hcur.
Qed.

Lemma player_line_dealt (shuffled_roles : list Role.t) (ps : list Player) :
  player_line <$> zip_with dealt shuffled_roles ps
  = zip_with (λ role p, UnchangedPlayer (username p) role) shuffled_roles ps.
Proof.
  revert ps. induction shuffled_roles as [|role roles IH]; intros [|p ps]; [done..|].
  cbn. rewrite IH. f_equal. unfold player_line. cbn. by case_decide.
Qed.

(** X20.  Only a thief's swap changes what the final list of roles shows.
    After [setup_game] on a roster of distinct identities and a night in
    which no thief action names a target, [get_final_roles_message] gives
    every player an unchanged line with the card dealt to that player, in
    the order of the roster, and numbers the remaining cards of the
    shuffled deck from 1. *)
Theorem final_roles_without_swap (rnd : nat → nat) (deck : list Role.t)
    (calls : list NightCall) (s : GameState) :
  roster_ok s → length deck = (player_count s + 2)%nat →
  Forall (λ call, moves_cards call = false) calls →
  ∃ s0,
    setup_game rnd deck s = (Ok tt, s0)
    ∧ get_final_roles_message (run_night calls s0)
      = [PlayersHeader]
        ++ zip_with (λ role p, UnchangedPlayer (username p) role)
             (shuffle rnd deck) (players s)
        ++ [BlankLine; CenterHeader]
        ++ imap (λ i role, CardLine (S i) role) (drop (player_count s) (shuffle rnd deck)).
Proof.
  intros Hnd Hlen Hquiet. eexists. split; [by apply setup_game_exact|].
  set (s0 := after_deal _ _ s).
  destruct (night_frame_run calls s0) as ((_ & Hname & Hinit & _) & _ & Hcenter & _).
  pose proof (quiet_night_keeps_roles calls s0 Hquiet) as Hcur.
  unfold get_final_roles_message.
  rewrite (player_line_ext _ _ Hname Hinit Hcur), Hcenter.
  unfold s0. cbn [players center_cards after_deal with_phase with_night_action_index
                  with_night_action_order with_center_cards with_players].
  by rewrite player_line_dealt.
Qed.

Lemma final_roles_without_swap_witness :
  ∃ s0,
    setup_game (λ _, 0%nat) sample_deck (sample_state GamePhase.WAITING) = (Ok tt, s0)
    ∧ length (get_final_roles_message (run_night quiet_night s0)) = 8%nat.
Proof.
  destruct (final_roles_without_swap (λ _, 0%nat) sample_deck quiet_night
              (sample_state GamePhase.WAITING)) as (s0 & Hrun & Hmsg).
  - apply (bool_decide_unpack _). vm_compute. exact I.
  - reflexivity.
  - repeat constructor.
  - exists s0. split; [exact Hrun|]. by rewrite Hmsg.
Defined.
